(** * Data_extract.py: parallel extraction of [.xz] shards, merge and vocabulary

    A shallow embedding of [src/Data_extract.py] and the properties of its
    extraction-and-merge pipeline.

    - Text is a list of Unicode code points ([N]); a Python [str] of length one
      is one code point, and [sorted] on such strings orders by code point.
      A shard's text is what the text-mode stream delivers (after newline
      translation).
    - The destination and scratch files live in a finite map from path to
      content; the source directory is a separate, read-only listing. While a
      run lasts its temporary directory exists and can be written to, so
      opening a scratch file succeeds; a write adds to the end of what its
      handle has written.
    - What the operating system and the [random] module decide (process ids,
      random integers, the name of the temporary directory, the order in which
      pool workers advance) is either an explicit argument or a
      non-deterministic choice of the step relation of the worker pool.
    - [process_files_in_parallel] is given twice: as a function, for the
      schedule that runs the tasks one after the other, which [main] uses; and
      as the relation [parallel_run] over all interleavings of the workers'
      steps. Every interleaved run returns the value and leaves the files of
      the function ([parallel_run_sequential], [main_interleaved_files]). *)

From Stdlib Require Import ZArith NArith List String Ascii Lia.
From Stdlib Require Import DecimalString DecimalN DecimalFacts.
From Stdlib Require Import Floats.SpecFloat.
From stdpp Require Import gmap strings list sorting.

Local Open Scope nat_scope.

(** ** Text, paths and the file system *)

Abbreviation text := (list N).
Abbreviation filesystem := (gmap string (list N)).

Definition text_of_string (s : string) : text :=
  map N_of_ascii (list_ascii_of_string s).

(** [str(n)] for a non-negative integer. *)
Definition str_of_N (n : N) : string := NilZero.string_of_uint (N.to_uint n).

Definition starts_with_slash (s : string) : bool :=
  match s with
  | String c _ => Ascii.eqb c "/"
  | EmptyString => false
  end.

Fixpoint ends_with_slash (s : string) : bool :=
  match s with
  | EmptyString => false
  | String c EmptyString => Ascii.eqb c "/"
  | String _ s' => ends_with_slash s'
  end.

(** The directory part [os.path.join] puts in front of a relative name. *)
Definition dir_prefix (d : string) : string :=
  match d with
  | EmptyString => EmptyString
  | _ => if ends_with_slash d then d else d +:+ "/"
  end.

(** [os.path.join(a, b)] (POSIX): an absolute [b] discards [a]. *)
Definition path_join (a b : string) : string :=
  if starts_with_slash b then b else dir_prefix a +:+ b.

(** A path lies in directory [d] when it extends [d]'s prefix. *)
Definition in_dir (d p : string) : bool := String.prefix (dir_prefix d) p.

(** [filename.endswith(".xz")] *)
Fixpoint endswith_xz (s : string) : bool :=
  match s with
  | EmptyString => false
  | String _ s' => String.eqb s ".xz" || endswith_xz s'
  end.

(** ** The source directory and its compressed shards *)

(** What a text-mode [lzma.open] stream delivers: the characters that decode,
    and whether the stream then breaks (a corrupt archive, a truncated stream,
    bytes that are not UTF-8) instead of reaching its end. *)
Record xz_stream := XzStream { decoded : text; corrupt : bool }.

Inductive dir_entry :=
| SubDir
| RegularFile (content : xz_stream).

(** [os.listdir] order is kept: the train/validation split depends on it. *)
Abbreviation directory := (list (string * dir_entry)).

Fixpoint dir_lookup (d : directory) (name : string) : option dir_entry :=
  match d with
  | [] => None
  | (n, e) :: d' => if String.eqb n name then Some e else dir_lookup d' name
  end.

Definition is_regular (e : dir_entry) : bool :=
  match e with RegularFile _ => true | SubDir => false end.

(** [xz_files_in_dir], lines 48-49. *)
Definition xz_files_in_dir (d : directory) : list string :=
  map fst (filter (fun ne => endswith_xz (fst ne) && is_regular (snd ne)) d).

(** [infile.read(n)] on a text stream with [rest] still to deliver: [n]
    characters when there are as many, else what is left before the end of the
    stream, or the decoder's exception when the stream breaks first. *)
Inductive read_result :=
| ReadOk (chunk rest : text)
| ReadError.

Definition stream_read (n : N) (rest : text) (bad : bool) : read_result :=
  if (n <=? N.of_nat (length rest))%N
  then ReadOk (take (N.to_nat n) rest) (drop (N.to_nat n) rest)
  else if bad then ReadError
  else ReadOk rest [].

(** ** Log and console *)

Inductive failure := FileNotFound | IsADirectory | DecodeError.

Inductive message :=
| DirNotFound (folder : string)
| Scanning (folder : string)
| Found (n : nat)
| NoXzFiles
| ProcessingCounts (ntrain nval : nat)
| ProcessingTraining
| ProcessingValidation
| ErrorProcessing (file_path : string) (why : failure)
| ProcessingComplete (succeeded failed : nat)
| WritingVocabulary (n : nat)
| ExtractionComplete.

Inductive event :=
| LogError (m : message)
| LogInfo (m : message)
| Print (m : message).

(** ** [process_file], lines 23-46 *)

(** [os.getpid()] and [random.randint(1000, 9999)] as seen by one task. *)
Record ids := Ids { pid : N; rnd : N }.

Definition unique_id (i : ids) : string :=
  str_of_N (pid i) +:+ "_" +:+ str_of_N (rnd i).

Definition temp_output (temp_dir : string) (i : ids) (filename : string) : string :=
  path_join temp_dir (unique_id i +:+ "_" +:+ filename +:+ ".txt").

(** The result tuple [(temp_output, chars)] or [(None, set())]. *)
Abbreviation result := (option string * gset N)%type.

(** Where a worker is in [process_file]. *)
Inductive wstate :=
| Opening
| Copying (rest : text) (bad : bool) (chars : gset N)
| Finished (r : result).

Section ProcessFile.
(** The chunk size ([1024*1024] in the source), the path of the source
    directory and what it holds. *)
Variable chunk_size : N.
Variable folder_path : string.
Variable folder : directory.

Definition fail_with (filename : string) (why : failure) : list event :=
  let m := ErrorProcessing (path_join folder_path filename) why in
  [LogError m; Print m].

(** One step of [process_file] on the scratch file [out]: the two [open]s,
    or one [read] with the [write] and [chars.update] that follow it. A write
    goes to the end of what this handle has written. *)
Definition worker_step (filename out : string) (w : wstate) (fs : filesystem)
  : wstate * filesystem * list event :=
  match w with
  | Opening =>
      match dir_lookup folder filename with
      | None => (Finished (None, ∅), fs, fail_with filename FileNotFound)
      | Some SubDir => (Finished (None, ∅), fs, fail_with filename IsADirectory)
      | Some (RegularFile s) =>
          (Copying (decoded s) (corrupt s) ∅, <[out := []]> fs, [])
      end
  | Copying rest bad chars =>
      match stream_read chunk_size rest bad with
      | ReadError => (Finished (None, ∅), fs, fail_with filename DecodeError)
      | ReadOk [] _ => (Finished (Some out, chars), fs, [])
      | ReadOk chunk rest' =>
          (Copying rest' bad (chars ∪ list_to_set chunk),
           <[out := default [] (fs !! out) ++ chunk]> fs, [])
      end
  | Finished r => (w, fs, [])
  end.

Fixpoint run_worker (fuel : nat) (filename out : string) (w : wstate)
    (fs : filesystem) (evs : list event) : wstate * filesystem * list event :=
  match w, fuel with
  | Finished _, _ | _, O => (w, fs, evs)
  | _, S fuel' =>
      let '(w', fs', e) := worker_step filename out w fs in
      run_worker fuel' filename out w' fs' (evs ++ e)
  end.

(** Steps that always bring [process_file] to its [return]. *)
Definition steps_bound (filename : string) : nat :=
  match dir_lookup folder filename with
  | Some (RegularFile s) => length (decoded s) + 2
  | _ => 1
  end.

Definition result_of (w : wstate) : result :=
  match w with Finished r => r | _ => (None, ∅) end.

Definition process_file (temp_dir : string) (i : ids) (filename : string)
    (fs : filesystem) : result * filesystem * list event :=
  let out := temp_output temp_dir i filename in
  let '(w, fs', evs) :=
    run_worker (steps_bound filename) filename out Opening fs [] in
  (result_of w, fs', evs).
End ProcessFile.

(** ** [process_files_in_parallel], lines 51-81 *)

(** The temporary directory's name and what [os.getpid()] and
    [random.randint] give to the task submitted at each position. *)
Record run_env := RunEnv { temp_dir : string; task_ids : nat -> ids }.

Record tally := Tally {
  success_count : nat;
  failure_count : nat;
  all_chars : gset N
}.

(** [bool(temp_path)]: [None] and the empty string are false. *)
Definition truthy (p : option string) : bool :=
  match p with
  | Some s => negb (String.eqb s "")
  | None => false
  end.

(** The merge loop, lines 66-76; [outfile] appends to [output_file]. *)
Fixpoint merge_results (collect_vocab : bool) (output_file : string)
    (results : list result) (fs : filesystem) (t : tally) : filesystem * tally :=
  match results with
  | [] => (fs, t)
  | (temp_path, chars) :: rest =>
      match (if truthy temp_path then temp_path ≫= (fs !!.) else None) with
      | Some content =>
          merge_results collect_vocab output_file rest
            (<[output_file := default [] (fs !! output_file) ++ content]> fs)
            (Tally (S (success_count t)) (failure_count t)
               (if collect_vocab then all_chars t ∪ chars else all_chars t))
      | None =>
          merge_results collect_vocab output_file rest fs
            (Tally (success_count t) (S (failure_count t)) (all_chars t))
      end
  end.

(** Leaving the [with tempfile.TemporaryDirectory()] block removes the
    directory with everything in it. *)
Definition cleanup (dir : string) (fs : filesystem) : filesystem :=
  filter (fun kv => in_dir dir (fst kv) = false) fs.

(** [open(output_file, "a")] creates a missing file and keeps an existing one. *)
Definition open_append (output_file : string) (fs : filesystem) : filesystem :=
  <[output_file := default [] (fs !! output_file)]> fs.

(** Lines 64-81, once the pool has delivered [results] in submission order. *)
Definition merge_and_report (dir output_file : string) (collect_vocab : bool)
    (results : list result) (fs : filesystem) (evs : list event)
  : option (gset N) * filesystem * list event :=
  let '(fs', t) :=
    merge_results collect_vocab output_file results
      (open_append output_file fs) (Tally 0 0 ∅) in
  let m := ProcessingComplete (success_count t) (failure_count t) in
  (if collect_vocab then Some (all_chars t) else None,
   cleanup dir fs',
   evs ++ [LogInfo m; Print m]).

(** *** The pool, one task after the other *)

Section Run.
Variable chunk_size : N.
Variable folder_path : string.
Variable folder : directory.
Variable env : run_env.

(** [executor.map(process_file, args)] under the schedule that runs the
    tasks one at a time in submission order. *)
Fixpoint executor_map (k : nat) (files : list string) (fs : filesystem)
    (evs : list event) : list result * filesystem * list event :=
  match files with
  | [] => ([], fs, evs)
  | f :: files' =>
      let '(r, fs1, e) :=
        process_file chunk_size folder_path folder (temp_dir env) (task_ids env k) f fs in
      let '(rs, fs2, evs2) := executor_map (S k) files' fs1 (evs ++ e) in
      (r :: rs, fs2, evs2)
  end.

Definition process_files_in_parallel (files : list string) (output_file : string)
    (collect_vocab : bool) (fs : filesystem)
  : option (gset N) * filesystem * list event :=
  let '(results, fs1, evs) := executor_map 0 files fs [] in
  merge_and_report (temp_dir env) output_file collect_vocab results fs1 evs.
End Run.

(** *** The pool, workers interleaved *)

Record worker := Worker {
  w_index : nat;
  w_file : string;
  w_ids : ids;
  w_out : string;
  w_state : wstate
}.

Record pool := Pool {
  pending : list (nat * string);
  running : list worker;
  collected : gmap nat result;
  disk : filesystem;
  emitted : list event
}.

Definition max_workers : nat := 4.

Definition is_finished (w : wstate) : bool :=
  match w with Finished _ => true | _ => false end.

Section Pool.
Variable chunk_size : N.
Variable folder_path : string.
Variable folder : directory.
Variable dir : string.

(** A free worker process takes the next task in submission order: a process
    runs one task at a time, so its process id is that of no running task, and
    its random integer is whatever its generator gives. Any running task makes
    one step of [process_file]. A task that has returned hands in its result. *)
Inductive pool_step : pool -> pool -> Prop :=
| pool_start k f rest ws done fs evs i :
    length ws < max_workers ->
    Forall (fun w => pid (w_ids w) <> pid i) ws ->
    (1000 <= rnd i <= 9999)%N ->
    pool_step (Pool ((k, f) :: rest) ws done fs evs)
              (Pool rest (ws ++ [Worker k f i (temp_output dir i f) Opening])
                 done fs evs)
| pool_work pend ws1 w ws2 done fs evs s' fs' e :
    is_finished (w_state w) = false ->
    worker_step chunk_size folder_path folder (w_file w) (w_out w) (w_state w) fs
      = (s', fs', e) ->
    pool_step (Pool pend (ws1 ++ w :: ws2) done fs evs)
              (Pool pend
                 (ws1 ++ Worker (w_index w) (w_file w) (w_ids w) (w_out w) s' :: ws2)
                 done fs' (evs ++ e))
| pool_collect pend ws1 w ws2 done fs evs r :
    w_state w = Finished r ->
    pool_step (Pool pend (ws1 ++ w :: ws2) done fs evs)
              (Pool pend (ws1 ++ ws2) (<[w_index w := r]> done) fs evs).

Definition pool_init (files : list string) (fs : filesystem) : pool :=
  Pool (imap (fun k f => (k, f)) files) [] ∅ fs [].

Definition pool_done (p : pool) : Prop := pending p = [] /\ running p = [].

(** The iterator of [executor.map]: the results by submission position. *)
Definition results_in_order (n : nat) (done : gmap nat result) : option (list result) :=
  mapM (fun k => done !! k) (seq 0 n).

(** A run of [process_files_in_parallel] under some interleaving. *)
Definition parallel_run (files : list string) (output_file : string)
    (collect_vocab : bool) (fs : filesystem)
    (out : option (gset N) * filesystem * list event) : Prop :=
  exists p results,
    rtc pool_step (pool_init files fs) p /\ pool_done p /\
    results_in_order (length files) (collected p) = Some results /\
    out = merge_and_report dir output_file collect_vocab results (disk p) (emitted p).
End Pool.

(** ** Splitting and sampling, lines 105-113 *)

(** Python's [float] is IEEE 754 binary64. For the values met here (a
    non-negative integer times a positive constant, far from overflow and
    underflow) a float is an integer significand of at most 53 bits with a
    power of two, and every operation rounds to the nearest such value, ties to
    the even significand. [round53] does this rounding on an integer. *)
Definition round53 (a : Z) : Z :=
  let bits := (Z.log2 a + 1)%Z in
  if (bits <=? 53)%Z then a
  else
    let s := (bits - 53)%Z in
    let q := Z.shiftr a s in
    let r := Z.land a (Z.ones s) in
    let half := Z.shiftl 1 (s - 1) in
    let q' := if (half <? r)%Z || ((r =? half)%Z && Z.odd q) then (q + 1)%Z else q in
    Z.shiftl q' s.

(** [int(n * c)] for the float constant [c = m * 2^-e]: [n] is converted to a
    float, the product is rounded, and [int] drops the fraction. *)
Definition float_mul_trunc (n m e : Z) : Z :=
  Z.shiftr (round53 (round53 n * m)) e.

Definition int_of_float_mul (n : nat) (m e : Z) : nat :=
  Z.to_nat (float_mul_trunc (Z.of_nat n) m e).

(** [0.9] is [0x1.ccccccccccccdp-1] and [0.01] is [0x1.47ae147ae147bp-7]. *)
Definition split_index (total_files : nat) : nat :=
  int_of_float_mul total_files 8106479329266893 53.

Definition sample_count (len : nat) : nat :=
  Nat.max 1 (int_of_float_mul len 5764607523034235 59).

Global Arguments round53 : simpl never.
Global Arguments float_mul_trunc : simpl never.
Global Arguments int_of_float_mul : simpl never.
Global Arguments split_index : simpl never.
Global Arguments sample_count : simpl never.

(** [random.sample(population, k)], from the library's documentation: [k]
    elements from pairwise distinct positions, in the order they are drawn;
    more than [len(population)] elements raise [ValueError]. [picks i] is the
    random integer of the [i]-th draw, reduced to the size of what is left to
    draw from, and the drawn slot is refilled with the last element: the pool
    variant of CPython's implementation (its other variant, which rejects
    positions already drawn, yields the same results over all draws). *)
Fixpoint sample_pool {A} (pool : list A) (picks : nat -> nat) (i k : nat) : list A :=
  match k, pool with
  | S k', x :: _ =>
      let n := length pool in
      let j := picks i mod n in
      nth j pool x :: sample_pool (take (n - 1) (<[j := List.last pool x]> pool)) picks (S i) k'
  | _, _ => []
  end.

Definition random_sample {A} (picks : nat -> nat) (population : list A) (k : nat)
  : option (list A) :=
  if k <=? length population then Some (sample_pool population picks 0 k) else None.

Definition split_and_sample (picks_train picks_val : nat -> nat) (files : list string)
  : option (list string * list string) :=
  let total_files := length files in
  let split := split_index total_files in
  let files_train := take split files in
  let files_val := drop split files in
  tr ← random_sample picks_train files_train (sample_count (length files_train));
  va ← random_sample picks_val files_val (sample_count (length files_val));
  Some (tr, va).

(** ** [main], lines 83-139 *)

(** What the path [openwebtext] names. *)
Inductive source :=
| Absent
| NotADirectory
| Dir (d : directory).

Record oracle := Oracle {
  picks_train : nat -> nat;
  picks_val : nat -> nat;
  env_train : run_env;
  env_val : run_env
}.

Inductive exception := ValueError | NotADirectoryError.

Inductive outcome :=
| Returned (fs : filesystem) (evs : list event)
| Raised (e : exception) (fs : filesystem) (evs : list event).

Definition folder_path : string := "openwebtext".
Definition output_file_train : string := "output_train.txt".
Definition output_file_val : string := "output_val.txt".
Definition vocab_file : string := "vocab.txt".
Definition chunk_size : N := 1024 * 1024.

(** [sorted(all_chars)] *)
Definition sorted_chars (s : gset N) : list N := merge_sort N.le (elements s).

(** Lines 135-136: each character followed by a newline. *)
Definition vocab_lines (cs : list N) : text := concat (map (fun c => [c; 10%N]) cs).

Definition is_empty_set (s : gset N) : bool := bool_decide (s = ∅).

(** Lines 118-120: [open(file_path, 'w')] leaves an empty file. *)
Definition truncate_all (paths : list string) (fs : filesystem) : filesystem :=
  foldl (fun m p => <[p := []]> m) fs paths.

(** Lines 129-136; an empty set is false, as [None] would be. *)
Definition write_vocab (train_chars val_chars : gset N) (fs : filesystem)
  : filesystem * list event :=
  if negb (is_empty_set train_chars) || negb (is_empty_set val_chars) then
    let all :=
      if negb (is_empty_set train_chars) && negb (is_empty_set val_chars)
      then train_chars ∪ val_chars
      else if negb (is_empty_set train_chars) then train_chars else val_chars in
    (<[vocab_file := vocab_lines (sorted_chars all)]> fs,
     [LogInfo (WritingVocabulary (size all))])
  else (fs, []).

Definition main (o : oracle) (src : source) (fs : filesystem) : outcome :=
  match src with
  | Absent =>
      Returned fs [LogError (DirNotFound folder_path); Print (DirNotFound folder_path)]
  | NotADirectory =>
      Raised NotADirectoryError fs [LogInfo (Scanning folder_path)]
  | Dir folder =>
      let files := xz_files_in_dir folder in
      let total_files := length files in
      let evs0 := [LogInfo (Scanning folder_path); LogInfo (Found total_files)] in
      if total_files =? 0 then
        Returned fs (evs0 ++ [LogError NoXzFiles; Print NoXzFiles])
      else
        match split_and_sample (picks_train o) (picks_val o) files with
        | None => Raised ValueError fs evs0
        | Some (files_train_sampled, files_val_sampled) =>
            let evs1 := evs0 ++ [LogInfo (ProcessingCounts (length files_train_sampled)
                                            (length files_val_sampled))] in
            let fs1 := truncate_all [output_file_train; output_file_val] fs in
            let '(train_chars, fs2, e2) :=
              process_files_in_parallel chunk_size folder_path folder (env_train o)
                files_train_sampled output_file_train true fs1 in
            let '(val_chars, fs3, e3) :=
              process_files_in_parallel chunk_size folder_path folder (env_val o)
                files_val_sampled output_file_val true fs2 in
            let '(fs4, e4) :=
              write_vocab (default ∅ train_chars) (default ∅ val_chars) fs3 in
            Returned fs4
              (evs1 ++ [LogInfo ProcessingTraining] ++ e2
                    ++ [LogInfo ProcessingValidation] ++ e3
                    ++ e4 ++ [LogInfo ExtractionComplete; Print ExtractionComplete])
        end
  end.

(** ** Notions the properties are stated with *)

Fixpoint string_forallb (P : ascii -> bool) (s : string) : bool :=
  match s with
  | EmptyString => true
  | String c s' => P c && string_forallb P s'
  end.

Definition is_digit (c : ascii) : bool :=
  (48 <=? nat_of_ascii c) && (nat_of_ascii c <=? 57).

(** [tempfile] hands out absolute paths. *)
Definition absolute (e : run_env) : Prop := starts_with_slash (temp_dir e) = true.

(** The text of a shard that decodes to its end, [None] for one that fails. *)
Definition shard_text (folder : directory) (filename : string) : option text :=
  match dir_lookup folder filename with
  | Some (RegularFile s) => if corrupt s then None else Some (decoded s)
  | _ => None
  end.

(** Why a shard fails. *)
Definition shard_failure (folder : directory) (filename : string) : failure :=
  match dir_lookup folder filename with
  | None => FileNotFound
  | Some SubDir => IsADirectory
  | Some (RegularFile _) => DecodeError
  end.

(** What a worker's state says about the [content] of its scratch file. *)
Definition wstate_ok (folder : directory) (filename out : string) (w : wstate)
    (content : option text) : Prop :=
  match w with
  | Opening => True
  | Copying rest bad chars =>
      exists s written,
        dir_lookup folder filename = Some (RegularFile s) /\ bad = corrupt s /\
        decoded s = written ++ rest /\ content = Some written /\
        chars = list_to_set written
  | Finished r =>
      match shard_text folder filename with
      | Some t => r = (Some out, list_to_set t) /\ content = Some t
      | None => r = (None, ∅)
      end
  end.

(** Steps a worker still has to make. *)
Definition wmeasure (folder : directory) (filename : string) (w : wstate) : nat :=
  match w with
  | Opening => steps_bound folder filename
  | Copying rest _ _ => length rest + 1
  | Finished _ => 0
  end.

(** What a failing shard logs and prints. *)
Definition failure_events (folder_path : string) (folder : directory)
    (filename : string) : list event :=
  match shard_text folder filename with
  | Some _ => []
  | None => fail_with folder_path filename (shard_failure folder filename)
  end.

(** The text a run appends to its output file and the characters it
    collects: those of the shards that decode, in submission order. *)
Definition run_text (folder : directory) (files : list string) : text :=
  concat (omap (shard_text folder) files).

Definition run_chars (folder : directory) (files : list string) : gset N :=
  ⋃ (list_to_set <$> omap (shard_text folder) files).

Definition successes (folder : directory) (files : list string) : nat :=
  length (omap (shard_text folder) files).

Definition failures (folder : directory) (files : list string) : nat :=
  length (filter (fun f => shard_text folder f = None) files).

(** The results a run's tasks return, and their scratch paths, from
    submission position [k] on. *)
Definition expected_result (folder : directory) (dir : string) (i : ids)
    (filename : string) : result :=
  match shard_text folder filename with
  | Some t => (Some (temp_output dir i filename), list_to_set t)
  | None => (None, ∅)
  end.

Fixpoint expected_results (folder : directory) (env : run_env) (k : nat)
    (files : list string) : list result :=
  match files with
  | [] => []
  | f :: files' =>
      expected_result folder (temp_dir env) (task_ids env k) f
        :: expected_results folder env (S k) files'
  end.

Fixpoint scratch_paths (env : run_env) (k : nat) (files : list string) : list string :=
  match files with
  | [] => []
  | f :: files' =>
      temp_output (temp_dir env) (task_ids env k) f :: scratch_paths env (S k) files'
  end.

(** A result as the merge loop needs it: of a shard that decodes, a scratch
    path of the run that holds the shard's text, with its characters. *)
Definition result_matches (folder : directory) (dir : string) (fs : filesystem)
    (filename : string) (r : result) : Prop :=
  match shard_text folder filename with
  | Some t =>
      exists i, r = (Some (temp_output dir i filename), list_to_set t) /\
                fs !! temp_output dir i filename = Some t
  | None => r = (None, ∅)
  end.

(** The tasks of a run with their submission positions, from [k] on. *)
Fixpoint tasks_from (k : nat) (files : list string) : list (nat * string) :=
  match files with
  | [] => []
  | f :: files' => (k, f) :: tasks_from (S k) files'
  end.

(** Steps the pool can still make. *)
Definition pool_measure (folder : directory) (p : pool) : nat :=
  sum_list ((fun kf => steps_bound folder (snd kf) + 2) <$> pending p)
  + sum_list ((fun w => wmeasure folder (w_file w) (w_state w) + 1) <$> running p).

Section PoolInvariant.
Variable folder : directory.
Variable dir : string.
Variable files : list string.
Variable fs0 : filesystem.

Definition worker_ok (fs : filesystem) (w : worker) : Prop :=
  files !! w_index w = Some (w_file w) /\
  w_out w = temp_output dir (w_ids w) (w_file w) /\
  wstate_ok folder (w_file w) (w_out w) (w_state w) (fs !! w_out w).

(** A result that has been handed in matches its shard: its scratch file holds
    the shard's text, or will again when the running task that writes to the
    same path (the same shard, taken later by the same process with the same
    random integer) has returned. *)
Definition collected_ok (fs : filesystem) (ws : list worker) (k : nat) (r : result)
  : Prop :=
  exists f, files !! k = Some f /\
    match shard_text folder f with
    | Some t =>
        exists i, r = (Some (temp_output dir i f), list_to_set t) /\
                  (fs !! temp_output dir i f = Some t \/
                   temp_output dir i f ∈ (w_out <$> ws))
    | None => r = (None, ∅)
    end.

(** What holds of the pool throughout a run on [files] started on [fs0]:
    the first [m] tasks have been started, each of them is running or has
    handed in its result, the running tasks are in different processes, and
    the scratch files agree with the workers. *)
Record pool_inv (m : nat) (p : pool) : Prop := PoolInv {
  inv_pending : pending p = tasks_from m (drop m files);
  inv_le : m <= length files;
  inv_all : forall k, k < m ->
    k ∈ (w_index <$> running p) \/ is_Some (collected p !! k);
  inv_pids : NoDup ((fun w => pid (w_ids w)) <$> running p);
  inv_running : Forall (worker_ok (disk p)) (running p);
  inv_collected : map_Forall (collected_ok (disk p) (running p)) (collected p);
  inv_frame : forall q, in_dir dir q = false -> disk p !! q = fs0 !! q
}.
End PoolInvariant.

(** The file system an outcome leaves, and its log and console. *)
Definition outcome_fs (o : outcome) : filesystem :=
  match o with Returned fs _ | Raised _ fs _ => fs end.

Definition outcome_events (o : outcome) : list event :=
  match o with Returned _ evs | Raised _ _ evs => evs end.

(** What a task hands to the merge: the content of the scratch file its
    result names, and its character set. *)
Definition functional_result (out : result * filesystem * list event)
  : option text * gset N :=
  let '(r, fs, _) := out in (fst r ≫= (fs !!.), snd r).

(** The reference for the chunked loop: the shard read, written and folded
    in one piece. *)
Definition process_file_whole (folder : directory) (filename : string)
  : option text * gset N :=
  match dir_lookup folder filename with
  | Some (RegularFile s) =>
      if corrupt s then (None, ∅) else (Some (decoded s), list_to_set (decoded s))
  | _ => (None, ∅)
  end.

(** [main] with each of its two runs under some interleaving of the pool. *)
Definition main_interleaved (o : oracle) (src : source) (fs : filesystem)
    (out : outcome) : Prop :=
  match src with
  | Dir folder =>
      match split_and_sample (picks_train o) (picks_val o) (xz_files_in_dir folder) with
      | Some (tr, va) =>
          exists c1 fs2 e2 c2 fs3 e3 evs,
            parallel_run chunk_size folder_path folder (temp_dir (env_train o))
              tr output_file_train true
              (truncate_all [output_file_train; output_file_val] fs) (c1, fs2, e2) /\
            parallel_run chunk_size folder_path folder (temp_dir (env_val o))
              va output_file_val true fs2 (c2, fs3, e3) /\
            out = Returned (write_vocab (default ∅ c1) (default ∅ c2) fs3).1 evs
      | None => out = main o src fs
      end
  | _ => out = main o src fs
  end.

(** The shards whose failure, if they fail, is still to be logged: those of
    the running tasks that have not returned, and those not yet started. *)
Definition still_to_log (p : pool) : list string :=
  (w_file <$> filter (fun w => is_finished (w_state w) = false) (running p))
    ++ (snd <$> pending p).

(** What the merge loop reads for a result, line 70: the content of the
    scratch file it names, when it names one and the file exists. *)
Definition scratch_content (fs : filesystem) (r : result) : option text :=
  if truthy r.1 then r.1 ≫= (fs !!.) else None.

(** ** Schedules of the pool, to run an interleaving *)

(** What the pool does next: a free process with ids [i] takes the next task,
    the running task at position [n] makes a step, or it hands in its result. *)
Inductive action :=
| Start (i : ids)
| Work (n : nat)
| Collect (n : nat).

Definition pool_act (chunk_size : N) (folder_path : string) (folder : directory)
    (dir : string) (a : action) (p : pool) : option pool :=
  match a with
  | Start i =>
      match pending p with
      | (k, f) :: rest =>
          if (length (running p) <? max_workers)
             && forallb (fun w => negb (pid (w_ids w) =? pid i)%N) (running p)
             && (1000 <=? rnd i)%N && (rnd i <=? 9999)%N
          then Some (Pool rest
                       (running p ++ [Worker k f i (temp_output dir i f) Opening])
                       (collected p) (disk p) (emitted p))
          else None
      | [] => None
      end
  | Work n =>
      match running p !! n with
      | Some w =>
          if is_finished (w_state w) then None
          else
            let '(s', fs', e) :=
              worker_step chunk_size folder_path folder (w_file w) (w_out w)
                (w_state w) (disk p) in
            Some (Pool (pending p)
                    (take n (running p)
                       ++ Worker (w_index w) (w_file w) (w_ids w) (w_out w) s'
                       :: drop (S n) (running p))
                    (collected p) fs' (emitted p ++ e))
      | None => None
      end
  | Collect n =>
      match running p !! n with
      | Some w =>
          match w_state w with
          | Finished r =>
              Some (Pool (pending p)
                      (take n (running p) ++ drop (S n) (running p))
                      (<[w_index w := r]> (collected p)) (disk p) (emitted p))
          | _ => None
          end
      | None => None
      end
  end.

Fixpoint run_schedule (chunk_size : N) (folder_path : string) (folder : directory)
    (dir : string) (acts : list action) (p : pool) : option pool :=
  match acts with
  | [] => Some p
  | a :: acts' =>
      match pool_act chunk_size folder_path folder dir a p with
      | Some p' => run_schedule chunk_size folder_path folder dir acts' p'
      | None => None
      end
  end.

(** ** Sample data *)

Definition shard (s : string) (bad : bool) : dir_entry :=
  RegularFile (XzStream (text_of_string s) bad).

Definition demo_folder : directory :=
  [("a.xz", shard "hi" false); ("b.xz", shard "yo" false);
   ("c.xz", shard "zzz" true); ("d.xz", SubDir); ("notes.txt", shard "n" false)].

Definition corrupt_folder : directory :=
  [("a.xz", shard "ab" true); ("b.xz", shard "" true)].

Definition demo_env (dir : string) : run_env :=
  RunEnv dir (fun k => Ids 4242 (1000 + N.of_nat k)).

Definition demo_oracle : oracle :=
  Oracle (fun _ => 0) (fun _ => 0) (demo_env "/tmp/tmpq") (demo_env "/tmp/tmpr").

Definition numbered_files (n : nat) : list string :=
  map (fun k => str_of_N (N.of_nat k) +:+ ".xz") (seq 0 n).

(** A schedule of two workers on [a.xz] and [b.xz] in which the second task
    returns and hands in its result while the first has not yet opened its
    files, and the rest of that run. *)
Definition first_half : list action :=
  [Start (Ids 11 1000); Start (Ids 12 1000); Work 1; Work 1; Work 1; Collect 1].

Definition second_half : list action := [Work 0; Work 0; Work 0; Collect 0].

Definition run_demo (acts : list action) : option pool :=
  run_schedule 2 "openwebtext" demo_folder "/tmp/tmpq" acts
    (pool_init ["a.xz"; "b.xz"] ∅).

(** Three results for the merge loop: one scratch file that is there, one
    that has gone, and a failure. *)
Definition merge_demo_results : list result :=
  [(Some "/t/x", {[104%N]}); (Some "/t/gone", {[122%N]}); (None, ∅)].

Definition merge_demo_fs : filesystem := {["/t/x" := [104%N]; "out" := [97%N]]}.

(** ** The same product in the Standard Library's model of IEEE 754 *)

Definition ieee_of_int (n : Z) : spec_float :=
  match n with
  | Zpos p => binary_round 53 1024 false p 0
  | _ => S754_zero false
  end.

Definition ieee_trunc (x : spec_float) : Z :=
  match x with
  | S754_finite false m e =>
      if (0 <=? e)%Z then Z.shiftl (Zpos m) e else Z.shiftr (Zpos m) (- e)
  | _ => 0%Z
  end.

Definition ieee_mul_trunc (n : Z) (m : positive) (e : Z) : Z :=
  ieee_trunc (SFmul 53 1024 (ieee_of_int n) (S754_finite false m (- e))).

(** * Properties *)

(** ** Strings and scratch paths *)

Lemma string_app_nil_l (s : string) : "" +:+ s = s.
Proof. reflexivity. Qed.

Lemma string_app_cons (c : ascii) (s t : string) :
  String c s +:+ t = String c (s +:+ t).
Proof. reflexivity. Qed.

Ltac string_simpl :=
  repeat (rewrite ?string_app_cons, ?string_app_nil_l in *; simpl in * ).

Lemma string_app_nil_r (s : string) : s +:+ "" = s.
Proof. induction s as [|c s IH]; string_simpl; [done | by rewrite IH]. Qed.

Lemma string_app_assoc (a b c : string) : (a +:+ b) +:+ c = a +:+ (b +:+ c).
Proof. induction a as [|x a IH]; string_simpl; [done | by rewrite IH]. Qed.

Lemma string_app_length (a b : string) :
  String.length (a +:+ b) = String.length a + String.length b.
Proof. induction a as [|x a IH]; string_simpl; [done | by rewrite IH]. Qed.

Lemma string_app_inv_tail (a b t : string) : a +:+ t = b +:+ t -> a = b.
Proof.
  revert b. induction a as [|x a IH]; intros [|y b] H.
  - done.
  - apply (f_equal String.length) in H.
    rewrite !string_app_length in H. simpl in H. lia.
  - apply (f_equal String.length) in H.
    rewrite !string_app_length in H. simpl in H. lia.
  - rewrite !string_app_cons in H. injection H as -> H. f_equal. by apply IH.
Qed.

Lemma digits_of_uint (d : Decimal.uint) :
  string_forallb is_digit (NilEmpty.string_of_uint d) = true.
Proof. induction d; simpl; auto. Qed.

Lemma str_of_N_digits (n : N) : string_forallb is_digit (str_of_N n) = true.
Proof.
  unfold str_of_N, NilZero.string_of_uint.
  destruct (N.to_uint n) eqn:E; try apply digits_of_uint. done.
Qed.

Lemma str_of_N_inj (n m : N) : str_of_N n = str_of_N m -> n = m.
Proof.
  unfold str_of_N. intros H. apply DecimalN.Unsigned.to_uint_inj.
  assert (Hnil : forall k, N.to_uint k <> Decimal.Nil).
  { intros k E. pose proof (DecimalN.Unsigned.of_to k) as Hk.
    rewrite E in Hk. simpl in Hk. subst k. discriminate E. }
  pose proof (NilZero.usu _ (Hnil n)) as Hn.
  pose proof (NilZero.usu _ (Hnil m)) as Hm.
  rewrite H in Hn. congruence.
Qed.

(** A string of digits ends at the first underscore. *)
Lemma digits_split (a b r r' : string) :
  string_forallb is_digit a = true -> string_forallb is_digit b = true ->
  a +:+ String "_" r = b +:+ String "_" r' -> a = b /\ r = r'.
Proof.
  revert b. induction a as [|x a IH]; intros [|y b] Ha Hb H; string_simpl.
  - by injection H.
  - injection H as <- _. by destruct (andb_prop _ _ Hb).
  - injection H as -> _. by destruct (andb_prop _ _ Ha).
  - injection H as -> H.
    apply andb_prop in Ha as [_ Ha]. apply andb_prop in Hb as [_ Hb].
    destruct (IH b Ha Hb H) as [-> ->]. done.
Qed.

Lemma digits_not_absolute (a r : string) :
  string_forallb is_digit a = true ->
  starts_with_slash (a +:+ String "_" r) = false.
Proof.
  destruct a as [|x a]; string_simpl; [done|]. intros [Hx _]%andb_prop.
  destruct (Ascii.eqb_spec x "/") as [->|]; done.
Qed.

Lemma scratch_name_relative (i : ids) (rest : string) :
  starts_with_slash (unique_id i +:+ "_" +:+ rest) = false.
Proof.
  unfold unique_id. rewrite !string_app_assoc. string_simpl.
  apply digits_not_absolute, str_of_N_digits.
Qed.

Lemma temp_output_eq (d : string) (i : ids) (f : string) :
  temp_output d i f = dir_prefix d +:+ unique_id i +:+ "_" +:+ f +:+ ".txt".
Proof. unfold temp_output, path_join. by rewrite scratch_name_relative. Qed.

Lemma temp_output_inj (d : string) (i i' : ids) (f f' : string) :
  temp_output d i f = temp_output d i' f' -> i = i' /\ f = f'.
Proof.
  rewrite !temp_output_eq. intros H%String.app_inj.
  unfold unique_id in H. rewrite !string_app_assoc in H. string_simpl.
  apply digits_split in H as [Hp H]; [|apply str_of_N_digits..].
  apply digits_split in H as [Hr H]; [|apply str_of_N_digits..].
  apply string_app_inv_tail in H.
  apply str_of_N_inj in Hp, Hr. destruct i, i'; simpl in *. by subst.
Qed.

Lemma prefix_app (a b : string) : String.prefix a (a +:+ b) = true.
Proof.
  induction a as [|x a IH]; string_simpl; [by destruct b|].
  destruct (ascii_dec x x); [done | congruence].
Qed.

Lemma temp_output_in_dir (d : string) (i : ids) (f : string) :
  in_dir d (temp_output d i f) = true.
Proof. rewrite temp_output_eq. apply prefix_app. Qed.

(** ** One worker *)

Section Worker.
Variable chunk_size : N.
Variable folder_path : string.
Variable folder : directory.
Hypothesis chunk_pos : (0 < chunk_size)%N.

Let step := worker_step chunk_size folder_path folder.

Lemma stream_read_cases (rest : text) (bad : bool) :
  (exists chunk rest', stream_read chunk_size rest bad = ReadOk chunk rest' /\
     chunk <> [] /\ rest = chunk ++ rest') \/
  (stream_read chunk_size rest bad = ReadOk [] [] /\ rest = [] /\ bad = false) \/
  (stream_read chunk_size rest bad = ReadError /\ bad = true).
Proof.
  unfold stream_read. destruct (N.leb_spec chunk_size (N.of_nat (length rest))) as [Hle|Hlt].
  - left. exists (take (N.to_nat chunk_size) rest), (drop (N.to_nat chunk_size) rest).
    split; [done|]. split; [|by rewrite take_drop].
    destruct rest as [|c rest]; simpl in *; [lia|].
    destruct (N.to_nat chunk_size) eqn:E; [lia | done].
  - destruct bad; [by right; right|].
    destruct rest as [|c rest]; [by right; left|].
    left. exists (c :: rest), []. by rewrite app_nil_r.
Qed.

(** A worker writes to its own scratch file only. *)
Lemma worker_step_frame f out w fs w' fs' e p :
  step f out w fs = (w', fs', e) -> p <> out -> fs' !! p = fs !! p.
Proof.
  unfold step, worker_step. intros H Hp.
  destruct w as [|rest bad chars|r].
  - destruct (dir_lookup folder f) as [[|s]|]; simplify_eq; try done.
    by rewrite lookup_insert_ne.
  - destruct (stream_read chunk_size rest bad) as [[|c chunk] rest'|];
      simplify_eq; try done.
    by rewrite lookup_insert_ne.
  - by simplify_eq.
Qed.

Lemma worker_step_ok f out w fs w' fs' e :
  wstate_ok folder f out w (fs !! out) ->
  step f out w fs = (w', fs', e) ->
  wstate_ok folder f out w' (fs' !! out) /\
  e = (if is_finished w' && negb (is_finished w)
       then failure_events folder_path folder f else []).
Proof.
  unfold step, worker_step.
  intros Hok H. destruct w as [|rest bad chars|r].
  - destruct (dir_lookup folder f) as [[|s]|] eqn:E; simplify_eq; simpl;
      unfold failure_events, shard_text, shard_failure; rewrite ?E; simpl.
    + done.
    + split; [|done]. exists s, []. by rewrite lookup_insert_eq.
    + done.
  - destruct Hok as (s & written & E & -> & Hdec & Hfs & ->).
    destruct (stream_read_cases rest (corrupt s))
      as [(chunk & rest' & Hr & Hne & ->)|[(Hr & -> & Hgood)|(Hr & Hbad)]];
      rewrite Hr in H.
    + destruct chunk as [|c chunk]; [done|]. simplify_eq. simpl.
      split; [|done]. exists s, (written ++ c :: chunk).
      rewrite lookup_insert_eq, Hfs, Hdec, <- app_assoc. simpl.
      repeat split; try done. by rewrite list_to_set_app_L.
    + simplify_eq. simpl.
      unfold failure_events, shard_text. rewrite E, Hgood, Hdec, app_nil_r. done.
    + simplify_eq. simpl.
      unfold failure_events, shard_text, shard_failure. rewrite E, Hbad. done.
  - simplify_eq. simpl. done.
Qed.

Lemma worker_step_measure f out w fs w' fs' e :
  is_finished w = false ->
  step f out w fs = (w', fs', e) ->
  wmeasure folder f w' < wmeasure folder f w.
Proof.
  unfold step, worker_step, steps_bound. intros Hw H.
  destruct w as [|rest bad chars|r]; [| |done]; simpl.
  - unfold steps_bound.
    destruct (dir_lookup folder f) as [[|s]|]; simplify_eq; simpl; lia.
  - destruct (stream_read_cases rest bad)
      as [(chunk & rest' & Hr & Hne & ->)|[(Hr & -> & Hgood)|(Hr & Hbad)]];
      rewrite Hr in H.
    + destruct chunk as [|c chunk]; [done|]. simplify_eq. simpl.
      rewrite length_app. lia.
    + simplify_eq. simpl. lia.
    + simplify_eq. simpl. lia.
Qed.

Lemma wmeasure_pos f w : is_finished w = false -> 0 < wmeasure folder f w.
Proof.
  destruct w; simpl; [|lia|done]. unfold steps_bound.
  destruct (dir_lookup folder f) as [[|s]|]; lia.
Qed.

Lemma run_worker_unfold fuel f out w fs evs :
  is_finished w = false ->
  run_worker chunk_size folder_path folder (S fuel) f out w fs evs
    = (let '(w', fs', e) := step f out w fs in
       run_worker chunk_size folder_path folder fuel f out w' fs' (evs ++ e)).
Proof. by destruct w. Qed.

(** With fuel for the steps that are left, a worker reaches its [return]. *)
Lemma run_worker_spec f out fuel w fs evs :
  wstate_ok folder f out w (fs !! out) ->
  wmeasure folder f w <= fuel ->
  exists r fs',
    run_worker chunk_size folder_path folder fuel f out w fs evs
      = (Finished r, fs',
         evs ++ (if is_finished w then [] else failure_events folder_path folder f)) /\
    wstate_ok folder f out (Finished r) (fs' !! out) /\
    (forall p, p <> out -> fs' !! p = fs !! p).
Proof.
  revert w fs evs. induction fuel as [|fuel IH]; intros w fs evs Hok Hm.
  - destruct (is_finished w) eqn:Hw.
    + destruct w; try done. exists r, fs. simpl. by rewrite app_nil_r.
    + pose proof (wmeasure_pos f w Hw). lia.
  - destruct (is_finished w) eqn:Hw.
    + destruct w; try done. exists r, fs. simpl. by rewrite app_nil_r.
    + destruct (step f out w fs) as [[w' fs1] e] eqn:Hs.
      destruct (worker_step_ok _ _ _ _ _ _ _ Hok Hs) as [Hok' ->].
      pose proof (worker_step_measure _ _ _ _ _ _ _ Hw Hs) as Hlt.
      destruct (IH w' fs1 (evs ++ (if is_finished w' && negb (is_finished w)
                   then failure_events folder_path folder f else [])) Hok')
        as (r & fs' & Hrun & Hfin & Hframe); [lia|].
      exists r, fs'. split; [|split; [done|]].
      * rewrite run_worker_unfold, Hs, Hrun, Hw by done.
        f_equal. rewrite <- app_assoc. f_equal.
        destruct (is_finished w'); simpl; by rewrite ?app_nil_r.
      * intros p Hp. rewrite Hframe by done.
        by apply (worker_step_frame _ _ _ _ _ _ _ _ Hs).
Qed.

(** The fuel [process_file] gives its loop is enough to reach the [return]. *)
Lemma process_file_returns temp_dir i f fs :
  exists r fs' evs,
    run_worker chunk_size folder_path folder (steps_bound folder f) f
      (temp_output temp_dir i f) Opening fs [] = (Finished r, fs', evs).
Proof.
  destruct (run_worker_spec f (temp_output temp_dir i f) (steps_bound folder f)
              Opening fs []) as (r & fs' & E & _); [done..|].
  by exists r, fs', (failure_events folder_path folder f).
Qed.

(** [process_file] always returns: the scratch path and the character set of
    a shard that decodes, [(None, set())] with the logged reason otherwise;
    and it writes to no file but its own scratch file. *)
Lemma process_file_spec temp_dir i f fs :
  exists fs',
    process_file chunk_size folder_path folder temp_dir i f fs
      = (match shard_text folder f with
         | Some t => (Some (temp_output temp_dir i f), list_to_set t)
         | None => (None, ∅)
         end, fs', failure_events folder_path folder f) /\
    (forall p, p <> temp_output temp_dir i f -> fs' !! p = fs !! p) /\
    (forall t, shard_text folder f = Some t ->
               fs' !! temp_output temp_dir i f = Some t).
Proof.
  unfold process_file.
  destruct (run_worker_spec f (temp_output temp_dir i f) (steps_bound folder f)
              Opening fs []) as (r & fs' & -> & Hfin & Hframe); [done..|].
  exists fs'. simpl in *. destruct (shard_text folder f) as [t|].
  - destruct Hfin as [-> Hfs]. repeat split; [done|]. by intros ? [= <-].
  - subst r. done.
Qed.
End Worker.
(** ** The merge and the run, tasks one after the other *)

Lemma temp_output_nonempty (d : string) (i : ids) (f : string) :
  String.eqb (temp_output d i f) "" = false.
Proof.
  apply String.eqb_neq. intros H. apply (f_equal String.length) in H.
  rewrite temp_output_eq, !string_app_length in H. simpl in H. lia.
Qed.

Lemma in_dir_neq (d p q : string) : in_dir d p = true -> in_dir d q = false -> p <> q.
Proof. congruence. Qed.

Lemma cleanup_lookup (d : string) (fs : filesystem) (p : string) :
  cleanup d fs !! p = if in_dir d p then None else fs !! p.
Proof.
  unfold cleanup. destruct (in_dir d p) eqn:E.
  - apply map_lookup_filter_None. right. intros x _. simpl. congruence.
  - destruct (fs !! p) as [x|] eqn:Hp.
    + by apply map_lookup_filter_Some.
    + apply map_lookup_filter_None. by left.
Qed.

Lemma cleanup_ext (d : string) (m1 m2 : filesystem) :
  (forall p, in_dir d p = false -> m1 !! p = m2 !! p) -> cleanup d m1 = cleanup d m2.
Proof.
  intros H. apply map_eq. intros p. rewrite !cleanup_lookup.
  destruct (in_dir d p) eqn:E; auto.
Qed.

Lemma elem_of_scratch_paths (env : run_env) (k : nat) (files : list string) (p : string) :
  p ∈ scratch_paths env k files <->
  exists j f, files !! j = Some f /\
              p = temp_output (temp_dir env) (task_ids env (k + j)) f.
Proof.
  revert k. induction files as [|f files IH]; intros k; simpl.
  - split; [by intros ?%elem_of_nil | by intros (j & f & ? & _)].
  - rewrite elem_of_cons, IH. split.
    + intros [->|(j & f' & Hj & ->)].
      * exists 0, f. by rewrite Nat.add_0_r.
      * exists (S j), f'. split; [done|]. by rewrite Nat.add_succ_r.
    + intros ([|j] & f' & Hj & ->); simpl in Hj.
      * left. rewrite Nat.add_0_r. congruence.
      * right. exists j, f'. split; [done|]. by rewrite Nat.add_succ_r.
Qed.

Lemma scratch_paths_in_dir (env : run_env) (k : nat) (files : list string) (p : string) :
  p ∈ scratch_paths env k files -> in_dir (temp_dir env) p = true.
Proof.
  intros (j & f & _ & ->)%elem_of_scratch_paths. apply temp_output_in_dir.
Qed.

Lemma elem_of_run_chars (folder : directory) (files : list string) (c : N) :
  c ∈ run_chars folder files <->
  exists f t, f ∈ files /\ shard_text folder f = Some t /\ c ∈ t.
Proof.
  unfold run_chars. rewrite elem_of_union_list. split.
  - intros (X & HX & Hc). apply list_elem_of_fmap in HX as (t & -> & Ht).
    apply list_elem_of_omap in Ht as (f & Hf & Hft).
    exists f, t. by rewrite elem_of_list_to_set in Hc.
  - intros (f & t & Hf & Hft & Hc). exists (list_to_set t). split.
    + apply list_elem_of_fmap. exists t. split; [done|].
      apply list_elem_of_omap. eauto.
    + by rewrite elem_of_list_to_set.
Qed.

Lemma run_text_cons (folder : directory) (f : string) (files : list string) :
  run_text folder (f :: files) = default [] (shard_text folder f) ++ run_text folder files.
Proof. unfold run_text. simpl. by destruct (shard_text folder f). Qed.

Lemma run_chars_cons (folder : directory) (f : string) (files : list string) :
  run_chars folder (f :: files)
  = list_to_set (default [] (shard_text folder f)) ∪ run_chars folder files.
Proof.
  unfold run_chars. simpl. destruct (shard_text folder f); simpl; [done|].
  by rewrite (left_id_L ∅ (∪)).
Qed.

Lemma successes_cons (folder : directory) (f : string) (files : list string) :
  successes folder (f :: files)
  = (match shard_text folder f with Some _ => 1 | None => 0 end) + successes folder files.
Proof. unfold successes. simpl. by destruct (shard_text folder f). Qed.

Lemma failures_cons (folder : directory) (f : string) (files : list string) :
  failures folder (f :: files)
  = (match shard_text folder f with Some _ => 0 | None => 1 end) + failures folder files.
Proof.
  unfold failures. rewrite filter_cons.
  destruct (decide (shard_text folder f = None)) as [E|E].
  - by rewrite E.
  - by destruct (shard_text folder f).
Qed.

Lemma successes_failures (folder : directory) (files : list string) :
  successes folder files + failures folder files = length files.
Proof.
  induction files as [|f files IH]; [done|].
  rewrite successes_cons, failures_cons. simpl.
  destruct (shard_text folder f); lia.
Qed.

(** The merge loop on results that match their shards: the texts of the
    shards that decode are appended in submission order, the counters count the
    shards that decode and those that fail, and no other file changes. *)
Lemma merge_results_matches (folder : directory) (dir : string) (collect : bool)
    (output : string) (files : list string) (results : list result)
    (fs : filesystem) (t : tally) (cur : text) :
  in_dir dir output = false ->
  fs !! output = Some cur ->
  Forall2 (result_matches folder dir fs) files results ->
  merge_results collect output results fs t
    = (<[output := cur ++ run_text folder files]> fs,
       Tally (success_count t + successes folder files)
             (failure_count t + failures folder files)
             (if collect then all_chars t ∪ run_chars folder files else all_chars t)).
Proof.
  intros Hout. revert results fs t cur.
  induction files as [|f files IH]; intros results fs t cur Hcur Hall.
  - apply Forall2_nil_inv_l in Hall as ->. simpl.
    unfold run_text, successes, failures, run_chars. simpl.
    rewrite app_nil_r, insert_id, !Nat.add_0_r by done.
    destruct t, collect; simpl; [|done]. by rewrite (right_id_L ∅ (∪)).
  - apply Forall2_cons_inv_l in Hall as (r & results' & Hr & Hall & ->).
    rewrite run_text_cons, run_chars_cons, successes_cons, failures_cons.
    unfold result_matches in Hr.
    destruct (shard_text folder f) as [tx|] eqn:Hf; simpl.
    + destruct Hr as (i & -> & Hfs). simpl.
      rewrite temp_output_nonempty, Hfs, Hcur. simpl.
      rewrite (IH results' _ _ (cur ++ tx)).
      * rewrite insert_insert_eq. simpl.
        rewrite <- app_assoc. f_equal. f_equal; [lia|].
        destruct collect; [|done]. by rewrite (assoc_L (∪)).
      * by rewrite lookup_insert_eq.
      * eapply Forall2_impl; [exact Hall|]. intros g r Hg.
        unfold result_matches in *. destruct (shard_text folder g) as [ty|]; [|done].
        destruct Hg as (i' & -> & Hg). exists i'. split; [done|].
        rewrite lookup_insert_ne; [done|].
        apply not_eq_sym, (in_dir_neq dir); [apply temp_output_in_dir | done].
    + subst r. simpl. rewrite (IH results' _ _ cur); [|done..].
      simpl. f_equal. f_equal; [lia|].
      destruct collect; [|done]. by rewrite (left_id_L ∅ (∪)).
Qed.

(** What [merge_and_report] makes of matching results. *)
Lemma merge_and_report_matches (folder : directory) (dir : string) (collect : bool)
    (output : string) (files : list string) (results : list result)
    (fs fs0 : filesystem) (evs : list event) :
  in_dir dir output = false ->
  (forall q, in_dir dir q = false -> fs !! q = fs0 !! q) ->
  Forall2 (result_matches folder dir fs) files results ->
  merge_and_report dir output collect results fs evs
    = (if collect then Some (run_chars folder files) else None,
       cleanup dir (<[output := default [] (fs0 !! output) ++ run_text folder files]> fs0),
       evs ++ [LogInfo (ProcessingComplete (successes folder files) (failures folder files));
               Print (ProcessingComplete (successes folder files) (failures folder files))]).
Proof.
  intros Hout Hframe Hall. unfold merge_and_report.
  rewrite (merge_results_matches folder dir collect output files results
             _ _ (default [] (fs0 !! output)) Hout).
  - simpl. f_equal. f_equal.
    + destruct collect; [|done]. f_equal. by rewrite (left_id_L ∅ (∪)).
    + apply cleanup_ext. intros p Hp. unfold open_append.
      rewrite insert_insert_eq.
      destruct (decide (p = output)) as [->|Hne].
      * by rewrite !lookup_insert_eq.
      * rewrite !lookup_insert_ne by done. by apply Hframe.
  - unfold open_append. by rewrite lookup_insert_eq, (Hframe output Hout).
  - eapply Forall2_impl; [exact Hall|]. intros g r Hg.
    unfold result_matches in *. destruct (shard_text folder g) as [ty|]; [|done].
    destruct Hg as (i' & -> & Hg). exists i'. split; [done|].
    unfold open_append. rewrite lookup_insert_ne; [done|].
    apply not_eq_sym, (in_dir_neq dir); [apply temp_output_in_dir | done].
Qed.

Section Sequential.
Variable chunk_size : N.
Variable folder_path : string.
Variable folder : directory.
Variable env : run_env.
Hypothesis chunk_pos : (0 < chunk_size)%N.

Let dir := temp_dir env.

(** The pool hands back, in submission order, the result of every task; each
    scratch file of a shard that decodes holds its text; nothing outside the
    scratch paths has changed. *)
Lemma executor_map_spec k files fs evs :
  exists fs',
    executor_map chunk_size folder_path folder env k files fs evs
      = (expected_results folder env k files, fs',
         evs ++ flat_map (failure_events folder_path folder) files) /\
    (forall p, p ∉ scratch_paths env k files -> fs' !! p = fs !! p) /\
    (forall j f t, files !! j = Some f -> shard_text folder f = Some t ->
       fs' !! temp_output dir (task_ids env (k + j)) f = Some t).
Proof.
  revert k fs evs. induction files as [|f files IH]; intros k fs evs; simpl.
  - exists fs. rewrite app_nil_r. by repeat split.
  - destruct (process_file_spec chunk_size folder_path folder chunk_pos
                dir (task_ids env k) f fs) as (fs1 & Hpf & Hframe1 & Hout1).
    fold dir. rewrite Hpf.
    destruct (IH (S k) fs1 (evs ++ failure_events folder_path folder f))
      as (fs' & -> & Hframe & Hout).
    exists fs'. split; [by rewrite <- app_assoc|]. split.
    + intros p Hp. apply not_elem_of_cons in Hp as [Hp1 Hp2].
      rewrite Hframe by done. by apply Hframe1.
    + intros [|j] g t Hj Ht; simpl in Hj.
      * simplify_eq. rewrite Nat.add_0_r.
        destruct (decide (temp_output dir (task_ids env k) g
                            ∈ scratch_paths env (S k) files)) as [Hin|Hnin].
        -- apply elem_of_scratch_paths in Hin as (j & g' & Hj & Heq).
           apply temp_output_inj in Heq as [Hi ->].
           fold dir in Hout. rewrite Hi. by apply Hout.
        -- rewrite Hframe by done. by apply Hout1.
      * rewrite Nat.add_succ_r. by apply Hout.
Qed.

Lemma expected_results_match k files fs :
  (forall j f t, files !! j = Some f -> shard_text folder f = Some t ->
     fs !! temp_output dir (task_ids env (k + j)) f = Some t) ->
  Forall2 (result_matches folder dir fs) files (expected_results folder env k files).
Proof.
  revert k. induction files as [|f files IH]; intros k Hfs; simpl; constructor.
  - unfold result_matches, expected_result.
    destruct (shard_text folder f) as [t|] eqn:Hf; [|done].
    exists (task_ids env k). split; [done|].
    specialize (Hfs 0 f t eq_refl Hf). by rewrite Nat.add_0_r in Hfs.
  - apply IH. intros j g t Hj Hg.
    rewrite Nat.add_succ_l, <- Nat.add_succ_r. by apply (Hfs (S j)).
Qed.

(** [process_files_in_parallel] in closed form. *)
Lemma process_files_in_parallel_spec files output collect fs :
  in_dir dir output = false ->
  process_files_in_parallel chunk_size folder_path folder env files output collect fs
    = (if collect then Some (run_chars folder files) else None,
       cleanup dir (<[output := default [] (fs !! output) ++ run_text folder files]> fs),
       flat_map (failure_events folder_path folder) files
         ++ [LogInfo (ProcessingComplete (successes folder files) (failures folder files));
             Print (ProcessingComplete (successes folder files) (failures folder files))]).
Proof.
  intros Hout. unfold process_files_in_parallel.
  destruct (executor_map_spec 0 files fs []) as (fs1 & -> & Hframe & Hfs).
  apply (merge_and_report_matches folder dir); [done| |].
  - intros q Hq. apply Hframe.
    intros Hin%scratch_paths_in_dir. fold dir in Hin. congruence.
  - by apply (expected_results_match 0).
Qed.
End Sequential.
(** ** The pool under any interleaving *)

Lemma tasks_from_imap (k : nat) (files : list string) :
  imap (fun j f => (k + j, f)) files = tasks_from k files.
Proof.
  revert k. induction files as [|f files IH]; intros k; simpl; [done|].
  rewrite Nat.add_0_r. f_equal. rewrite <- IH.
  apply imap_ext. intros j g _. simpl. f_equal. lia.
Qed.

Lemma tasks_from_cons_inv (m k : nat) (f : string) (files : list string)
    (rest : list (nat * string)) :
  tasks_from m (drop m files) = (k, f) :: rest ->
  k = m /\ files !! m = Some f /\ rest = tasks_from (S m) (drop (S m) files).
Proof.
  intros H. destruct (drop m files) as [|g l] eqn:E; simpl in H; [done|].
  injection H as <- <- <-.
  assert (Hm : files !! m = Some g).
  { pose proof (lookup_drop files m 0) as Hd. rewrite E, Nat.add_0_r in Hd.
    simpl in Hd. done. }
  repeat split; [done|]. f_equal.
  rewrite (drop_S _ _ _ Hm) in E. congruence.
Qed.

Lemma fmap_middle_neq {A B} (g : A -> B) (l1 l2 : list A) (x y : A) :
  NoDup (g <$> (l1 ++ x :: l2)) -> y ∈ l1 ++ l2 -> g y <> g x.
Proof.
  rewrite fmap_app, fmap_cons. intros Hnd Hy Heq.
  apply NoDup_app in Hnd as (_ & Hdisj & Hnd2).
  apply NoDup_cons in Hnd2 as [Hx _].
  apply elem_of_app in Hy as [Hy|Hy].
  - apply (Hdisj (g x)); [rewrite <- Heq; by apply list_elem_of_fmap_2|].
    apply elem_of_cons. by left.
  - apply Hx. rewrite <- Heq. by apply list_elem_of_fmap_2.
Qed.

Lemma NoDup_fmap_remove_middle {A B} (g : A -> B) (l1 l2 : list A) (x : A) :
  NoDup (g <$> (l1 ++ x :: l2)) -> NoDup (g <$> (l1 ++ l2)).
Proof.
  rewrite !fmap_app, fmap_cons. intros (H1 & Hd & H2)%NoDup_app.
  apply NoDup_cons in H2 as [Hx H2]. apply NoDup_app. repeat split; [done| |done].
  intros y Hy1 Hy2. apply (Hd y Hy1). apply elem_of_cons. by right.
Qed.

Lemma NoDup_fmap_transfer {A B C} `{EqDecision B} (g : A -> B) (h : A -> C) (l : list A) :
  NoDup (g <$> l) ->
  (forall x y, x ∈ l -> y ∈ l -> h x = h y -> g x = g y) ->
  NoDup (h <$> l).
Proof.
  induction l as [|a l IH]; csimpl; intros Hnd Hinj; [constructor|].
  apply NoDup_cons in Hnd as [Hnin Hnd]. apply NoDup_cons. split.
  - intros (y & Heq & Hy)%list_elem_of_fmap. apply Hnin.
    rewrite (Hinj a y); [by apply list_elem_of_fmap_2| by left | by right | done].
  - apply IH; [done|]. intros x y Hx Hy. apply Hinj; by right.
Qed.

Lemma sum_list_fmap_app {A} (g : A -> nat) (l1 l2 : list A) :
  sum_list (g <$> (l1 ++ l2)) = sum_list (g <$> l1) + sum_list (g <$> l2).
Proof. induction l1 as [|x l1 IH]; csimpl; [done|]. rewrite IH. lia. Qed.

Section PoolProof.
Variable chunk_size : N.
Variable folder_path : string.
Variable folder : directory.
Variable dir : string.
Variable files : list string.
Variable fs0 : filesystem.
Hypothesis chunk_pos : (0 < chunk_size)%N.

Let step := pool_step chunk_size folder_path folder dir.
Let inv := pool_inv folder dir files fs0.

Lemma pool_inv_init : inv 0 (pool_init files fs0).
Proof.
  unfold pool_init. split; simpl.
  - rewrite drop_0. apply (tasks_from_imap 0).
  - lia.
  - intros k Hk. lia.
  - constructor.
  - constructor.
  - apply map_Forall_empty.
  - done.
Qed.

(** Tasks in different processes have different scratch paths. *)
Lemma running_out_neq fs (ws1 ws2 : list worker) (w w2 : worker) :
  NoDup ((fun w => pid (w_ids w)) <$> (ws1 ++ w :: ws2)) ->
  Forall (worker_ok folder dir files fs) (ws1 ++ w :: ws2) ->
  w2 ∈ ws1 ++ ws2 -> w_out w2 <> w_out w.
Proof.
  intros Hnd Hrun Hw2 Heq.
  apply (fmap_middle_neq (fun w => pid (w_ids w)) _ _ _ _ Hnd Hw2).
  assert (Hin2 : w2 ∈ ws1 ++ w :: ws2).
  { apply elem_of_app in Hw2 as [?|?]; apply elem_of_app;
      [by left | right; apply elem_of_cons; by right]. }
  assert (Hin : w ∈ ws1 ++ w :: ws2).
  { apply elem_of_app. right. apply elem_of_cons. by left. }
  destruct (proj1 (Forall_forall _ _) Hrun w2 Hin2) as (_ & Ho2 & _).
  destruct (proj1 (Forall_forall _ _) Hrun w Hin) as (_ & Ho & _).
  rewrite Ho2, Ho in Heq. apply temp_output_inj in Heq as [Hi _]. by rewrite Hi.
Qed.

Lemma worker_ok_frame fs fs' w :
  fs' !! w_out w = fs !! w_out w -> worker_ok folder dir files fs w ->
  worker_ok folder dir files fs' w.
Proof. intros Heq (H1 & H2 & H3). repeat split; [done..|]. by rewrite Heq. Qed.

Lemma pool_inv_step m p p' :
  inv m p -> step p p' -> exists m', inv m' p'.
Proof.
  intros [Hpend Hle Hall Hpids Hrun Hcoll Hframe] Hstep.
  destruct Hstep as [k f rest ws done fs evs i Hfree Hproc Hrnd
                    |pend ws1 w ws2 done fs evs s' fs' e Hnf Hs
                    |pend ws1 w ws2 done fs evs r Hfin]; simpl in *.
  - (* a task is started *)
    symmetry in Hpend.
    apply tasks_from_cons_inv in Hpend as (-> & Hf & ->).
    exists (S m). split; simpl.
    + done.
    + apply lookup_lt_Some in Hf. lia.
    + intros k Hk. rewrite fmap_app, elem_of_app. simpl.
      destruct (decide (k = m)) as [->|Hne].
      * left. right. apply list_elem_of_singleton. done.
      * destruct (Hall k) as [?|?]; [lia|by left; left|by right].
    + rewrite fmap_app. simpl. apply NoDup_app. repeat split; [done| |].
      * intros x Hx ->%list_elem_of_singleton.
        apply list_elem_of_fmap in Hx as (w & Hw & Hin).
        by apply (proj1 (Forall_forall _ _) Hproc w Hin).
      * apply NoDup_singleton.
    + apply Forall_app. split; [done|]. apply Forall_singleton.
      repeat split; simpl; done.
    + intros k r Hk. destruct (Hcoll k r Hk) as (g & Hg & Hr).
      exists g. split; [done|]. destruct (shard_text folder g) as [t|]; [|done].
      destruct Hr as (i' & -> & [Hfs|Hin]); exists i'; (split; [done|]).
      * by left.
      * right. rewrite fmap_app, elem_of_app. by left.
    + done.
  - (* a running task makes a step *)
    exists m.
    assert (Hw : worker_ok folder dir files fs w).
    { apply (proj1 (Forall_forall _ _) Hrun). apply elem_of_app.
      right. apply elem_of_cons. by left. }
    destruct Hw as (Hwf & Hwo & Hws).
    destruct (worker_step_ok _ _ _ chunk_pos _ _ _ _ _ _ _ Hws Hs) as [Hws' _].
    pose proof (fun q => worker_step_frame chunk_size folder_path folder
                           _ _ _ _ _ _ _ q Hs) as Hfr.
    pose proof (running_out_neq fs ws1 ws2 w) as Hother.
    split; simpl.
    + done.
    + done.
    + intros k Hk. destruct (Hall k Hk) as [Hin|?]; [left|by right].
      by rewrite !fmap_app, !fmap_cons in *.
    + by rewrite !fmap_app, !fmap_cons in *.
    + apply Forall_app. split; [|apply Forall_cons; split].
      * apply Forall_forall. intros w2 Hw2.
        apply (worker_ok_frame fs).
        -- apply Hfr, Hother; [done..|]. apply elem_of_app. by left.
        -- apply (proj1 (Forall_forall _ _) Hrun), elem_of_app. by left.
      * repeat split; simpl; done.
      * apply Forall_forall. intros w2 Hw2.
        apply (worker_ok_frame fs).
        -- apply Hfr, Hother; [done..|]. apply elem_of_app. by right.
        -- apply (proj1 (Forall_forall _ _) Hrun), elem_of_app. right.
           apply elem_of_cons. by right.
    + intros k r Hk. destruct (Hcoll k r Hk) as (g & Hg & Hr).
      exists g. split; [done|]. destruct (shard_text folder g) as [t|]; [|done].
      destruct Hr as (i' & -> & Hor). exists i'. split; [done|].
      assert (Houts : w_out <$> (ws1 ++ Worker (w_index w) (w_file w) (w_ids w)
                                          (w_out w) s' :: ws2)
                      = w_out <$> (ws1 ++ w :: ws2)).
      { by rewrite !fmap_app, !fmap_cons. }
      rewrite Houts.
      destruct Hor as [Hfs|Hin]; [|by right].
      destruct (decide (temp_output dir i' g = w_out w)) as [Heq|Hne].
      * right. rewrite Heq, fmap_app, fmap_cons, elem_of_app, elem_of_cons. auto.
      * left. by rewrite Hfr.
    + intros q Hq. rewrite Hfr; [by apply Hframe|].
      apply not_eq_sym, (in_dir_neq dir); [|done].
      rewrite Hwo. apply temp_output_in_dir.
  - (* a finished task hands in its result *)
    exists m.
    assert (Hw : worker_ok folder dir files fs w).
    { apply (proj1 (Forall_forall _ _) Hrun). apply elem_of_app.
      right. apply elem_of_cons. by left. }
    destruct Hw as (Hwf & Hwo & Hws).
    rewrite Hfin in Hws. simpl in Hws.
    split; simpl.
    + done.
    + done.
    + intros k Hk. destruct (decide (k = w_index w)) as [->|Hne].
      * right. rewrite lookup_insert_eq. eauto.
      * rewrite lookup_insert_ne by done.
        destruct (Hall k Hk) as [Hin|?]; [left|by right].
        rewrite fmap_app, fmap_cons, elem_of_app, elem_of_cons in Hin.
        rewrite fmap_app, elem_of_app.
        destruct Hin as [?|[->|?]]; [by left | done | by right].
    + by apply NoDup_fmap_remove_middle in Hpids.
    + apply Forall_app in Hrun as [Hr1 Hr2]. apply Forall_cons in Hr2 as [_ Hr2].
      by apply Forall_app.
    + assert (Hkeep : forall k r0,
        collected_ok folder dir files fs (ws1 ++ w :: ws2) k r0 ->
        collected_ok folder dir files fs (ws1 ++ ws2) k r0).
      { intros k r0 (g & Hg & Hr). exists g. split; [done|].
        destruct (shard_text folder g) as [t|] eqn:Ht; [|done].
        destruct Hr as (i' & -> & [Hfs|Hin]); exists i'; (split; [done|]);
          [by left|].
        rewrite fmap_app, fmap_cons, elem_of_app, elem_of_cons in Hin.
        rewrite fmap_app, elem_of_app.
        destruct Hin as [?|[Heq|?]]; [by right; left| |by right; right].
        left. rewrite Heq. rewrite Hwo in Heq.
        apply temp_output_inj in Heq as [_ ->]. rewrite Ht in Hws. by destruct Hws. }
      apply map_Forall_insert_2.
      * exists (w_file w). split; [done|].
        destruct (shard_text folder (w_file w)) as [t|]; [|done].
        destruct Hws as [-> Hfs]. exists (w_ids w). rewrite <- Hwo. auto.
      * intros k r0 Hk. by apply Hkeep, (Hcoll k).
    + done.
Qed.

Lemma pool_inv_reachable p :
  rtc step (pool_init files fs0) p -> exists m, inv m p.
Proof.
  intros H. pattern p. revert p H. apply rtc_ind_r.
  - exists 0. apply pool_inv_init.
  - intros p1 p2 _ H12 [m Hm]. by apply (pool_inv_step m p1).
Qed.

(** When the pool is done, [executor.map] has a result for every task, in
    submission order, and each matches its shard. *)
Lemma pool_inv_done m p :
  inv m p -> pool_done p ->
  exists results,
    results_in_order (length files) (collected p) = Some results /\
    Forall2 (result_matches folder dir (disk p)) files results.
Proof.
  intros [Hpend Hle Hall Hpids Hrun Hcoll Hframe] [Hp Hr].
  assert (Hm : m = length files).
  { rewrite Hp in Hpend. destruct (drop m files) as [|g l] eqn:E; [|done].
    apply (f_equal length) in E. rewrite length_drop in E. simpl in E. lia. }
  subst m.
  assert (Hsome : forall k, k < length files -> is_Some (collected p !! k)).
  { intros k Hk. destruct (Hall k Hk) as [Hin|?]; [|done].
    rewrite Hr in Hin. by apply elem_of_nil in Hin. }
  destruct (mapM_is_Some_2 (fun k => collected p !! k) (seq 0 (length files)))
    as [results Hres].
  { apply Forall_forall. intros k Hk%elem_of_seq. apply Hsome. lia. }
  exists results. split; [done|].
  apply mapM_Some_1 in Hres.
  apply Forall2_same_length_lookup. split.
  - apply Forall2_length in Hres. by rewrite length_seq in Hres.
  - intros j f r Hf Hj.
    destruct (Forall2_lookup_r _ _ _ _ _ Hres Hj) as (k & Hk & Hc).
    apply lookup_seq in Hk as [-> _]. simpl in Hc.
    destruct (Hcoll _ _ Hc) as (f' & Hf' & Hm).
    assert (f' = f) as -> by congruence.
    unfold result_matches. destruct (shard_text folder f) as [t|]; [|done].
    destruct Hm as (i & -> & [Hfs|Hin]); [by exists i|].
    rewrite Hr in Hin. by apply elem_of_nil in Hin.
Qed.

(** Every run, whatever the interleaving and the scratch names, returns the
    same characters and leaves the same files. *)
Lemma parallel_run_spec output collect out :
  in_dir dir output = false ->
  parallel_run chunk_size folder_path folder dir files output collect fs0 out ->
  exists evs,
    out = (if collect then Some (run_chars folder files) else None,
           cleanup dir (<[output := default [] (fs0 !! output)
                                      ++ run_text folder files]> fs0),
           evs ++ [LogInfo (ProcessingComplete (successes folder files)
                                               (failures folder files));
                   Print (ProcessingComplete (successes folder files)
                                             (failures folder files))]).
Proof.
  intros Hout (p & results & Hreach & Hdone & Hres & ->).
  destruct (pool_inv_reachable p Hreach) as [m Hinv].
  destruct (pool_inv_done m p Hinv Hdone) as (results' & Hres' & Hall).
  assert (results' = results) as -> by congruence.
  exists (emitted p).
  apply (merge_and_report_matches folder dir); [done| |done].
  by destruct Hinv.
Qed.

(** The workers that run at the same time have different scratch files. *)
Lemma running_scratch_distinct p :
  rtc step (pool_init files fs0) p -> NoDup (w_out <$> running p).
Proof.
  intros Hreach. destruct (pool_inv_reachable p Hreach) as [m Hinv].
  destruct Hinv as [_ _ _ Hpids Hrun _ _].
  apply (NoDup_fmap_transfer (fun w => pid (w_ids w))); [done|].
  intros x y Hx Hy Heq.
  destruct (proj1 (Forall_forall _ _) Hrun x Hx) as (_ & Hox & _).
  destruct (proj1 (Forall_forall _ _) Hrun y Hy) as (_ & Hoy & _).
  rewrite Hox, Hoy in Heq. apply temp_output_inj in Heq as [Hi _]. by rewrite Hi.
Qed.

(** *** Every schedule comes to an end *)

Lemma fresh_pid (ws : list worker) :
  exists n : N, Forall (fun w => pid (w_ids w) <> n) ws.
Proof.
  assert (H : exists n : N, Forall (fun w => (pid (w_ids w) < n)%N) ws).
  { induction ws as [|w ws [n IH]]; [by exists 0%N|].
    exists (N.max n (pid (w_ids w) + 1)). constructor; [lia|].
    eapply Forall_impl; [exact IH|]. simpl. intros. lia. }
  destruct H as [n Hn]. exists n.
  eapply Forall_impl; [exact Hn|]. simpl. intros. lia.
Qed.

Lemma pool_progress p : pool_done p \/ exists p', step p p'.
Proof.
  destruct p as [pend ws done fs evs]. destruct ws as [|w ws].
  - destruct pend as [|[k f] rest]; [by left|]. right.
    eexists. apply (pool_start _ _ _ _ k f rest [] done fs evs (Ids 0 1000)).
    + unfold max_workers. simpl. lia.
    + constructor.
    + simpl. lia.
  - right. destruct (is_finished (w_state w)) eqn:Hw.
    + destruct (w_state w) as [| |r] eqn:E; try done.
      eexists. by apply (pool_collect _ _ _ _ pend [] w ws done fs evs r).
    + destruct (worker_step chunk_size folder_path folder (w_file w) (w_out w)
                  (w_state w) fs) as [[s' fs'] e] eqn:Hs.
      eexists. by apply (pool_work _ _ _ _ pend [] w ws done fs evs s' fs' e).
Qed.

Lemma pool_step_measure p p' :
  step p p' -> pool_measure folder p' < pool_measure folder p.
Proof.
  intros Hstep. unfold pool_measure.
  destruct Hstep as [k f rest ws done fs evs i Hfree Hproc Hrnd
                    |pend ws1 w ws2 done fs evs s' fs' e Hnf Hs
                    |pend ws1 w ws2 done fs evs r Hfin]; csimpl.
  - rewrite sum_list_fmap_app. csimpl. lia.
  - pose proof (worker_step_measure chunk_size folder_path folder chunk_pos
                  _ _ _ _ _ _ _ Hnf Hs) as Hlt.
    rewrite !sum_list_fmap_app. csimpl. lia.
  - rewrite !sum_list_fmap_app. csimpl. rewrite Hfin. csimpl. lia.
Qed.

Lemma pool_sn p : sn step p.
Proof.
  remember (pool_measure folder p) as n eqn:Hn. revert p Hn.
  induction (lt_wf n) as [n _ IH]. intros p ->.
  constructor. intros p' Hstep. unfold flip in Hstep.
  apply (IH (pool_measure folder p')); [by apply pool_step_measure | done].
Qed.

Lemma pool_completes p : exists p', rtc step p p' /\ pool_done p'.
Proof.
  induction (pool_sn p) as [p _ IH].
  destruct (pool_progress p) as [Hdone|[p1 Hstep]].
  - by exists p.
  - destruct (IH p1 Hstep) as (p' & Hreach & Hdone).
    exists p'. split; [|done]. by apply (rtc_l _ p p1).
Qed.

Lemma parallel_run_exists output collect :
  exists out,
    parallel_run chunk_size folder_path folder dir files output collect fs0 out.
Proof.
  destruct (pool_completes (pool_init files fs0)) as (p & Hreach & Hdone).
  destruct (pool_inv_reachable p Hreach) as [m Hinv].
  destruct (pool_inv_done m p Hinv Hdone) as (results & Hres & _).
  eexists. exists p, results.
  split; [done|]. split; [done|]. split; [done|]. reflexivity.
Qed.

(** The sequential schedule is one of the runs. *)
Lemma parallel_run_sequential env output collect out :
  temp_dir env = dir -> in_dir dir output = false ->
  parallel_run chunk_size folder_path folder dir files output collect fs0 out ->
  out.1 = (process_files_in_parallel chunk_size folder_path folder env
             files output collect fs0).1.
Proof.
  intros Hd Hout Hrun.
  destruct (parallel_run_spec output collect out Hout Hrun) as [evs ->].
  rewrite process_files_in_parallel_spec by (rewrite ?Hd; done).
  by rewrite Hd.
Qed.
End PoolProof.

(** Tasks at different positions of a list of distinct filenames have
    different scratch paths, whatever ids they draw. *)
Lemma scratch_neq (dir : string) (files : list string) k1 k2 f1 f2 i1 i2 :
  NoDup files ->
  files !! k1 = Some f1 -> files !! k2 = Some f2 -> k1 <> k2 ->
  temp_output dir i1 f1 <> temp_output dir i2 f2.
Proof.
  intros Hnd H1 H2 Hk [_ ->]%temp_output_inj.
  apply Hk. by apply (NoDup_lookup files k1 k2 f2).
Qed.
(** ** Splitting and sampling *)

(** [round53] against the Standard Library's binary64 operations, on list
    lengths around the rounding cases and on integers past [2^53]. *)
Example float_mul_trunc_agrees_with_ieee :
  Forall (fun n =>
            float_mul_trunc n 8106479329266893 53 = ieee_mul_trunc n 8106479329266893 53 /\
            float_mul_trunc n 5764607523034235 59 = ieee_mul_trunc n 5764607523034235 59)
    [0; 1; 2; 9; 10; 11; 99; 100; 101; 199; 200; 223; 1000; 12345; 1000000;
     9007199254740993; 3000000000000000001; 18446744073709551615]%Z.
Proof. repeat constructor; vm_compute; reflexivity. Qed.

Example split_index_values :
  map split_index [1; 2; 9; 10; 11; 100; 223] = [0; 1; 8; 9; 9; 90; 200] /\
  map sample_count [0; 1; 100; 199; 200; 223] = [1; 1; 1; 1; 2; 2].
Proof. vm_compute. split; reflexivity. Qed.

(** Rounding to 53 bits moves a value by at most one part in [2^53]. *)
Lemma round53_bounds (a : Z) :
  (0 <= a)%Z ->
  (a * (2 ^ 53 - 1) <= round53 a * 2 ^ 53 <= a * (2 ^ 53 + 1))%Z.
Proof.
  intros Ha. unfold round53.
  destruct (Z.leb_spec (Z.log2 a + 1) 53) as [Hsmall|Hbig]; [lia|].
  assert (Hpos : (0 < a)%Z).
  { destruct (Z.eq_dec a 0%Z) as [->|]; [simpl in Hbig; lia | lia]. }
  set (s := (Z.log2 a + 1 - 53)%Z).
  assert (Hs : (1 <= s)%Z) by (unfold s; lia).
  pose proof (Z.log2_spec a Hpos) as [Hlo _].
  replace (Z.log2 a) with (53 + (s - 1))%Z in Hlo by (unfold s; lia).
  rewrite Z.pow_add_r in Hlo by lia.
  rewrite Z.shiftr_div_pow2, Z.land_ones, !Z.shiftl_mul_pow2 by lia.
  assert (Hh : (0 < 2 ^ (s - 1))%Z) by (apply Z.pow_pos_nonneg; lia).
  assert (HP : (2 ^ s = 2 * 2 ^ (s - 1))%Z).
  { replace s with (1 + (s - 1))%Z at 1 by lia. by rewrite Z.pow_add_r by lia. }
  pose proof (Z.div_mod a (2 ^ s)) as Hdm.
  pose proof (Z.mod_pos_bound a (2 ^ s)) as Hmod.
  set (h := (2 ^ (s - 1))%Z) in *. rewrite HP in *.
  set (q := (a / (2 * h))%Z) in *. set (r := (a mod (2 * h))%Z) in *.
  assert (Ha' : (a = 2 * h * q + r)%Z) by (apply Hdm; lia).
  assert (Hr : (0 <= r < 2 * h)%Z) by (apply Hmod; lia).
  rewrite Z.mul_1_l.
  destruct (Z.ltb_spec h r) as [Hlt|Hge]; simpl.
  - nia.
  - destruct (Z.eqb_spec r h) as [Heq|Hne]; simpl.
    + destruct (Z.odd q); nia.
    + nia.
Qed.

Lemma int_of_float_mul_bounds (n : nat) (m e : Z) :
  (0 < m)%Z -> (0 <= e)%Z ->
  (Z.of_nat n * m * (2 ^ 53 - 1) * (2 ^ 53 - 1)
     < (Z.of_nat (int_of_float_mul n m e) + 1) * 2 ^ e * 2 ^ 53 * 2 ^ 53)%Z /\
  (Z.of_nat (int_of_float_mul n m e) * 2 ^ e * 2 ^ 53 * 2 ^ 53
     <= Z.of_nat n * m * (2 ^ 53 + 1) * (2 ^ 53 + 1))%Z.
Proof.
  intros Hm He. unfold int_of_float_mul, float_mul_trunc.
  pose proof (round53_bounds (Z.of_nat n) (Nat2Z.is_nonneg n)) as [H1l H1u].
  set (r1 := round53 (Z.of_nat n)) in *.
  assert (Hr1 : (0 <= r1)%Z) by lia.
  pose proof (round53_bounds (r1 * m) ltac:(nia)) as [H2l H2u].
  set (r2 := round53 (r1 * m)) in *.
  assert (Hr2 : (0 <= r2)%Z) by nia.
  rewrite Z.shiftr_div_pow2 by done.
  assert (Hp : (0 < 2 ^ e)%Z) by (apply Z.pow_pos_nonneg; lia).
  pose proof (Z.div_mod r2 (2 ^ e)) as Hdm.
  pose proof (Z.mod_pos_bound r2 (2 ^ e) Hp) as Hmod.
  assert (Hq : (0 <= r2 / 2 ^ e)%Z) by (apply Z.div_pos; lia).
  rewrite Z2Nat.id by done.
  set (q := (r2 / 2 ^ e)%Z) in *. set (P := (2 ^ e)%Z) in *.
  assert (Hr2' : (r2 = P * q + r2 mod P)%Z) by (apply Hdm; lia).
  split; nia.
Qed.

Lemma split_index_lt (n : nat) : 1 <= n -> split_index n < n.
Proof.
  intros Hn. unfold split_index.
  destruct (int_of_float_mul_bounds n 8106479329266893 53) as [_ Hu]; [lia..|].
  set (k := int_of_float_mul n 8106479329266893 53) in *.
  destruct (Nat.lt_ge_cases k n) as [|Hge]; [done|]. exfalso.
  assert (Hz : (Z.of_nat n <= Z.of_nat k)%Z) by lia.
  assert (Hn' : (1 <= Z.of_nat n)%Z) by lia.
  revert Hu Hz Hn'. generalize (Z.of_nat k), (Z.of_nat n). intros zk zn. lia.
Qed.

Lemma split_index_pos (n : nat) : 2 <= n -> 1 <= split_index n.
Proof.
  intros Hn. unfold split_index.
  destruct (int_of_float_mul_bounds n 8106479329266893 53) as [Hl _]; [lia..|].
  set (k := int_of_float_mul n 8106479329266893 53) in *.
  destruct (Nat.lt_ge_cases k 1) as [Hlt|]; [|done]. exfalso.
  assert (Hz : (Z.of_nat k = 0)%Z) by lia.
  assert (Hn' : (2 <= Z.of_nat n)%Z) by lia.
  rewrite Hz in Hl.
  revert Hl Hn'. generalize (Z.of_nat n). intros zn. lia.
Qed.

Lemma sample_count_pos (m : nat) : 1 <= sample_count m.
Proof. unfold sample_count. lia. Qed.

Lemma sample_count_le (m : nat) : 1 <= m -> sample_count m <= m.
Proof.
  intros Hm. unfold sample_count.
  destruct (int_of_float_mul_bounds m 5764607523034235 59) as [_ Hu]; [lia..|].
  set (k := int_of_float_mul m 5764607523034235 59) in *.
  apply Nat.max_lub; [done|].
  destruct (Nat.le_gt_cases k m) as [|Hgt]; [done|]. exfalso.
  assert (Hz : (Z.of_nat m <= Z.of_nat k)%Z) by lia.
  assert (Hm' : (1 <= Z.of_nat m)%Z) by lia.
  revert Hu Hz Hm'. generalize (Z.of_nat k), (Z.of_nat m). intros zk zm. lia.
Qed.

(** Rounding to 53 bits never goes below a multiple of [2^53] under the value. *)
Lemma round53_lower (x y : Z) :
  (0 <= y <= x)%Z -> (x < 2 ^ 106)%Z -> (2 ^ 53 | y)%Z -> (y <= round53 x)%Z.
Proof.
  intros [Hy Hyx] Hx [t Ht]. unfold round53.
  destruct (Z.leb_spec (Z.log2 x + 1) 53) as [Hsmall|Hbig]; [lia|].
  assert (Hpos : (0 < x)%Z).
  { destruct (Z.eq_dec x 0%Z) as [->|]; [simpl in Hbig; lia | lia]. }
  set (s := (Z.log2 x + 1 - 53)%Z).
  assert (Hs : (1 <= s <= 53)%Z).
  { split; [unfold s; lia|].
    assert (Z.log2 x < 106)%Z by (apply Z.log2_lt_pow2; lia). unfold s. lia. }
  rewrite Z.shiftr_div_pow2, !Z.shiftl_mul_pow2 by lia.
  assert (HP : (0 < 2 ^ s)%Z) by (apply Z.pow_pos_nonneg; lia).
  assert (Hsplit : (y = 2 ^ s * (2 ^ (53 - s) * t))%Z).
  { rewrite Z.mul_assoc, <- Z.pow_add_r by lia.
    replace (s + (53 - s))%Z with 53%Z by lia. lia. }
  assert (Hq : (2 ^ (53 - s) * t <= x / 2 ^ s)%Z).
  { apply Z.div_le_lower_bound; [done|]. lia. }
  set (q := (x / 2 ^ s)%Z) in *.
  assert (Hle : (y <= q * 2 ^ s)%Z).
  { rewrite Hsplit, (Z.mul_comm q). apply Z.mul_le_mono_nonneg_l; lia. }
  match goal with |- context [if ?c then _ else _] => destruct c end; lia.
Qed.

(** When the exact product lies far enough below the next integer, the float
    product truncates to the integer part of the exact product. *)
Lemma float_mul_trunc_floor (n m e k : Z) :
  (0 <= n < 2 ^ 53)%Z -> (0 < m)%Z -> (53 <= e)%Z -> (0 <= k)%Z ->
  (n * m < 2 ^ 106)%Z ->
  (k * 2 ^ e <= n * m)%Z ->
  (n * m * (2 ^ 53 + 1) < (k + 1) * 2 ^ e * 2 ^ 53)%Z ->
  float_mul_trunc n m e = k.
Proof.
  intros Hn Hm He Hk Hx Hlo Hhi. unfold float_mul_trunc.
  assert (Hrn : round53 n = n).
  { unfold round53. destruct (Z.leb_spec (Z.log2 n + 1) 53) as [|Hbig]; [done|].
    destruct (Z.eq_dec n 0%Z) as [->|]; [simpl in Hbig; lia|].
    assert (Z.log2 n < 53)%Z by (apply Z.log2_lt_pow2; lia). lia. }
  rewrite Hrn.
  assert (Hp : (0 < 2 ^ e)%Z) by (apply Z.pow_pos_nonneg; lia).
  assert (Hl : (k * 2 ^ e <= round53 (n * m))%Z).
  { apply round53_lower; [nia|done|].
    exists (k * 2 ^ (e - 53))%Z. rewrite <- Z.mul_assoc, <- Z.pow_add_r by lia.
    by replace (e - 53 + 53)%Z with e by lia. }
  pose proof (round53_bounds (n * m) ltac:(nia)) as [_ Hu].
  rewrite Z.shiftr_div_pow2 by lia.
  symmetry. apply (Z.div_unique_pos _ _ _ (round53 (n * m) - k * 2 ^ e)); nia.
Qed.

(** Below [2^48] files the float products are exact: the split index is
    [9 n / 10] and the sample size [max(1, m / 100)], in integer division. *)
Lemma split_index_exact (n : nat) :
  (Z.of_nat n < 2 ^ 48)%Z -> split_index n = 9 * n / 10.
Proof.
  intros Hz. unfold split_index, int_of_float_mul.
  rewrite (float_mul_trunc_floor _ _ _ (Z.of_nat (9 * n / 10))).
  - apply Nat2Z.id.
  - lia.
  - lia.
  - lia.
  - lia.
  - lia.
  - rewrite Nat2Z.inj_div, Nat2Z.inj_mul.
    change (Z.of_nat 9) with 9%Z. change (Z.of_nat 10) with 10%Z.
    pose proof (Z.mul_div_le (9 * Z.of_nat n) 10). lia.
  - rewrite Nat2Z.inj_div, Nat2Z.inj_mul.
    change (Z.of_nat 9) with 9%Z. change (Z.of_nat 10) with 10%Z.
    pose proof (Z.mul_succ_div_gt (9 * Z.of_nat n) 10). lia.
Qed.

Lemma sample_count_exact (m : nat) :
  (Z.of_nat m < 2 ^ 48)%Z -> sample_count m = Nat.max 1 (m / 100).
Proof.
  intros Hz. unfold sample_count, int_of_float_mul. f_equal.
  rewrite (float_mul_trunc_floor _ _ _ (Z.of_nat (m / 100))).
  - apply Nat2Z.id.
  - lia.
  - lia.
  - lia.
  - lia.
  - lia.
  - rewrite Nat2Z.inj_div. change (Z.of_nat 100) with 100%Z.
    pose proof (Z.mul_div_le (Z.of_nat m) 100). lia.
  - rewrite Nat2Z.inj_div. change (Z.of_nat 100) with 100%Z.
    pose proof (Z.mul_succ_div_gt (Z.of_nat m) 100). lia.
Qed.

(** One draw: the drawn element and the pool that is left are the pool. *)
Lemma sample_draw {A} (pool : list A) (x : A) (j : nat) :
  j < length pool ->
  nth j pool x :: take (length pool - 1) (<[j := List.last pool x]> pool) ≡ₚ pool.
Proof.
  intros Hj. destruct (exists_last (l := pool)) as (init & lst & ->).
  { intros ->. simpl in Hj. lia. }
  rewrite List.last_last, length_app in *. simpl in *.
  replace (length init + 1 - 1) with (length init) by lia.
  destruct (decide (j < length init)) as [Hlt|Hge].
  - destruct (lookup_lt_is_Some_2 init j Hlt) as [e He].
    apply list_elem_of_split_length in He as (l1 & l2 & -> & ->).
    rewrite <- (app_assoc l1). cbn [app]. rewrite (nth_middle l1).
    rewrite (insert_app_r_alt l1) by done.
    rewrite Nat.sub_diag. cbn [insert list_insert].
    replace (l1 ++ lst :: l2 ++ [lst]) with ((l1 ++ lst :: l2) ++ [lst])
      by (by rewrite <- app_assoc).
    rewrite take_app_length' by (rewrite !length_app; simpl; lia).
    rewrite <- (Permutation_middle l1 (l2 ++ [lst]) e). apply perm_skip.
    apply Permutation_app_head, Permutation_cons_append.
  - assert (j = length init) as -> by lia.
    rewrite nth_middle, (insert_app_r_alt init) by done.
    rewrite Nat.sub_diag. simpl. rewrite take_app_length.
    apply Permutation_cons_append.
Qed.

Lemma sample_pool_spec {A} (pool : list A) (picks : nat -> nat) (i k : nat) :
  k <= length pool ->
  length (sample_pool pool picks i k) = k /\
  exists rest, sample_pool pool picks i k ++ rest ≡ₚ pool.
Proof.
  revert pool i. induction k as [|k IH]; intros pool i Hk.
  - split; [done|]. by exists pool.
  - destruct pool as [|x pool']; [simpl in Hk; lia|].
    set (pool := x :: pool') in *.
    assert (Hj : picks i mod length pool < length pool).
    { apply Nat.mod_upper_bound. simpl. lia. }
    pose proof (sample_draw pool x _ Hj) as Hdraw.
    change (sample_pool pool picks i (S k))
      with (nth (picks i mod length pool) pool x
              :: sample_pool (take (length pool - 1)
                   (<[picks i mod length pool := List.last pool x]> pool))
                   picks (S i) k).
    set (left := take (length pool - 1)
                   (<[picks i mod length pool := List.last pool x]> pool)) in *.
    destruct (IH left (S i)) as [Hlen (rest & Hrest)].
    { unfold left. rewrite length_take, length_insert. simpl in *. lia. }
    split; [simpl; by rewrite Hlen|].
    exists rest. simpl. by rewrite Hrest.
Qed.

Lemma random_sample_spec {A} (picks : nat -> nat) (population : list A) (k : nat) :
  k <= length population ->
  exists s, random_sample picks population k = Some s /\
            length s = k /\ exists rest, s ++ rest ≡ₚ population.
Proof.
  intros Hk. unfold random_sample.
  destruct (Nat.leb_spec k (length population)); [|lia].
  eexists. split; [done|]. by apply sample_pool_spec.
Qed.

Lemma random_sample_too_many {A} (picks : nat -> nat) (population : list A) (k : nat) :
  length population < k -> random_sample picks population k = None.
Proof.
  intros Hk. unfold random_sample.
  destruct (Nat.leb_spec k (length population)); [lia|done].
Qed.

(** The step splits and samples whenever there are two files or more. *)
Lemma split_and_sample_spec (pt pv : nat -> nat) (files : list string) :
  2 <= length files ->
  exists tr va,
    split_and_sample pt pv files = Some (tr, va) /\
    length tr = sample_count (split_index (length files)) /\
    length va = sample_count (length files - split_index (length files)) /\
    (exists rest, tr ++ rest ≡ₚ take (split_index (length files)) files) /\
    (exists rest, va ++ rest ≡ₚ drop (split_index (length files)) files).
Proof.
  intros Hn. unfold split_and_sample.
  pose proof (split_index_lt (length files) ltac:(lia)) as Hlt.
  pose proof (split_index_pos (length files) Hn) as Hpos.
  set (k := split_index (length files)) in *.
  destruct (random_sample_spec pt (take k files) (sample_count (length (take k files))))
    as (tr & -> & Hltr & Hptr).
  { apply sample_count_le. rewrite length_take. lia. }
  destruct (random_sample_spec pv (drop k files) (sample_count (length (drop k files))))
    as (va & -> & Hlva & Hpva).
  { apply sample_count_le. rewrite length_drop. lia. }
  exists tr, va. rewrite length_take in Hltr. rewrite length_drop in Hlva.
  replace (k `min` length files) with k in Hltr by lia.
  split; [reflexivity|]. by repeat split.
Qed.
(** ** The vocabulary *)

Lemma StronglySorted_le_lt (l : list N) :
  NoDup l -> StronglySorted N.le l -> StronglySorted N.lt l.
Proof.
  intros Hnd Hs. induction Hs as [|x l Hs IH Hx]; [constructor|].
  apply NoDup_cons in Hnd as [Hnin Hnd]. constructor; [by apply IH|].
  apply Forall_forall. intros y Hy.
  pose proof (proj1 (Forall_forall _ _) Hx y Hy) as Hle.
  assert (x <> y) by (intros ->; done). lia.
Qed.

Lemma sorted_chars_sorted (s : gset N) : StronglySorted N.lt (sorted_chars s).
Proof.
  unfold sorted_chars. apply StronglySorted_le_lt.
  - rewrite merge_sort_Permutation. apply NoDup_elements.
  - apply StronglySorted_merge_sort; apply _.
Qed.

Lemma elem_of_sorted_chars (s : gset N) (c : N) : c ∈ sorted_chars s <-> c ∈ s.
Proof. unfold sorted_chars. by rewrite merge_sort_Permutation, elem_of_elements. Qed.

Lemma is_empty_set_spec (s : gset N) :
  is_empty_set s = true <-> s = ∅.
Proof. unfold is_empty_set. apply bool_decide_eq_true. Qed.

(** Lines 129-136: nothing is written when no character was collected;
    otherwise the file holds the sorted union. *)
Lemma write_vocab_spec (t v : gset N) (fs : filesystem) :
  write_vocab t v fs
  = if decide (t ∪ v = ∅) then (fs, [])
    else (<[vocab_file := vocab_lines (sorted_chars (t ∪ v))]> fs,
          [LogInfo (WritingVocabulary (size (t ∪ v)))]).
Proof.
  unfold write_vocab, is_empty_set.
  destruct (decide (t = ∅)) as [->|Ht], (decide (v = ∅)) as [->|Hv].
  - rewrite !bool_decide_eq_true_2 by done. simpl.
    rewrite decide_True; [done|]. by rewrite (left_id_L ∅ (∪)).
  - rewrite bool_decide_eq_true_2, bool_decide_eq_false_2 by done. simpl.
    rewrite (left_id_L ∅ (∪)). by rewrite decide_False.
  - rewrite bool_decide_eq_false_2, bool_decide_eq_true_2 by done. simpl.
    rewrite (right_id_L ∅ (∪)). by rewrite decide_False.
  - rewrite !bool_decide_eq_false_2 by done. simpl.
    rewrite decide_False; [done|]. set_solver.
Qed.

(** ** [main] *)

Lemma absolute_not_in_dir (e : run_env) (p : string) :
  absolute e -> starts_with_slash p = false -> in_dir (temp_dir e) p = false.
Proof.
  unfold absolute, in_dir, dir_prefix. intros Ha Hp.
  destruct (temp_dir e) as [|c d]; [done|]. simpl in Ha.
  apply Ascii.eqb_eq in Ha as ->.
  assert (Hgen : forall rest, String.prefix (String "/" rest) p = false).
  { intros rest. destruct p as [|b p]; [done|].
    change (String.prefix (String "/" rest) (String b p))
      with (if ascii_dec "/" b then String.prefix rest p else false).
    destruct (ascii_dec "/" b) as [E|]; [|done]. by subst b. }
  destruct (ends_with_slash (String "/" d)); [apply Hgen|].
  rewrite string_app_cons. apply Hgen.
Qed.

Lemma xz_files_in_dir_nil (d : directory) :
  xz_files_in_dir d = [] <->
  forall name e, (name, e) ∈ d -> endswith_xz name = true -> e = SubDir.
Proof.
  unfold xz_files_in_dir. split.
  - intros H name e Hin Hxz.
    apply fmap_nil_inv in H.
    destruct e as [|s]; [done|]. exfalso.
    assert (Hf : (name, RegularFile s)
              ∈ filter (fun ne => endswith_xz ne.1 && is_regular ne.2) d).
    { apply list_elem_of_filter. split; [|done]. simpl. by rewrite Hxz. }
    rewrite H in Hf. by apply elem_of_nil in Hf.
  - intros H. destruct (filter _ d) as [|[name e] l] eqn:E; [done|]. exfalso.
    assert (Hf : (name, e) ∈ filter (fun ne => endswith_xz ne.1 && is_regular ne.2) d).
    { rewrite E. by left. }
    apply list_elem_of_filter in Hf as [Hp Hin]. simpl in Hp.
    apply Is_true_true, andb_prop in Hp as [Hxz Hreg].
    rewrite (H name e Hin Hxz) in Hreg. done.
Qed.

Lemma destinations_distinct :
  output_file_train <> output_file_val /\
  output_file_train <> vocab_file /\
  output_file_val <> vocab_file.
Proof. repeat split; discriminate. Qed.

Section Main.
Variable o : oracle.
Variable folder : directory.
Hypothesis abs_train : absolute (env_train o).
Hypothesis abs_val : absolute (env_val o).

(** What [main] leaves in the three files it writes, when it gets to
    process the samples [tr] and [va]. *)
Lemma main_spec (fs : filesystem) (tr va : list string) :
  xz_files_in_dir folder <> [] ->
  split_and_sample (picks_train o) (picks_val o) (xz_files_in_dir folder)
    = Some (tr, va) ->
  exists fs' evs,
    main o (Dir folder) fs = Returned fs' evs /\
    fs' !! output_file_train = Some (run_text folder tr) /\
    fs' !! output_file_val = Some (run_text folder va) /\
    fs' !! vocab_file
      = (if decide (run_chars folder tr ∪ run_chars folder va = ∅)
         then fs !! vocab_file
         else Some (vocab_lines (sorted_chars
                      (run_chars folder tr ∪ run_chars folder va)))).
Proof.
  intros Hne Hs. unfold main.
  destruct (Nat.eqb_spec (length (xz_files_in_dir folder)) 0) as [H0|_].
  { by apply length_zero_iff_nil in H0. }
  rewrite Hs.
  assert (Hcs : (0 < chunk_size)%N) by done.
  destruct destinations_distinct as (Dtv & Dtc & Dvc).
  assert (Htt : in_dir (temp_dir (env_train o)) output_file_train = false)
    by (by apply absolute_not_in_dir).
  assert (Htv : in_dir (temp_dir (env_train o)) output_file_val = false)
    by (by apply absolute_not_in_dir).
  assert (Htc : in_dir (temp_dir (env_train o)) vocab_file = false)
    by (by apply absolute_not_in_dir).
  assert (Hvt : in_dir (temp_dir (env_val o)) output_file_train = false)
    by (by apply absolute_not_in_dir).
  assert (Hvv : in_dir (temp_dir (env_val o)) output_file_val = false)
    by (by apply absolute_not_in_dir).
  assert (Hvc : in_dir (temp_dir (env_val o)) vocab_file = false)
    by (by apply absolute_not_in_dir).
  rewrite (process_files_in_parallel_spec _ _ _ _ Hcs _ _ _ _ Htt).
  rewrite (process_files_in_parallel_spec _ _ _ _ Hcs _ _ _ _ Hvv).
  cbn [default from_option id]. rewrite write_vocab_spec.
  set (fs1 := truncate_all [output_file_train; output_file_val] fs).
  set (fs2 := cleanup (temp_dir (env_train o)) _).
  set (fs3 := cleanup (temp_dir (env_val o)) _).
  assert (H1t : fs1 !! output_file_train = Some []).
  { unfold fs1. simpl. by rewrite lookup_insert_ne, lookup_insert_eq. }
  assert (H1v : fs1 !! output_file_val = Some []).
  { unfold fs1. simpl. by rewrite lookup_insert_eq. }
  assert (H1c : fs1 !! vocab_file = fs !! vocab_file).
  { unfold fs1. simpl. by rewrite !lookup_insert_ne. }
  assert (H2t : fs2 !! output_file_train = Some (run_text folder tr)).
  { unfold fs2. by rewrite cleanup_lookup, Htt, lookup_insert_eq, H1t. }
  assert (H2v : fs2 !! output_file_val = Some []).
  { unfold fs2. rewrite cleanup_lookup, Htv, lookup_insert_ne; done. }
  assert (H2c : fs2 !! vocab_file = fs !! vocab_file).
  { unfold fs2. rewrite cleanup_lookup, Htc, lookup_insert_ne; done. }
  assert (H3t : fs3 !! output_file_train = Some (run_text folder tr)).
  { unfold fs3. rewrite cleanup_lookup, Hvt, lookup_insert_ne; done. }
  assert (H3v : fs3 !! output_file_val = Some (run_text folder va)).
  { unfold fs3. by rewrite cleanup_lookup, Hvv, lookup_insert_eq, H2v. }
  assert (H3c : fs3 !! vocab_file = fs !! vocab_file).
  { unfold fs3. rewrite cleanup_lookup, Hvc, lookup_insert_ne; done. }
  destruct (decide (run_chars folder tr ∪ run_chars folder va = ∅)) as [He|He].
  - eexists _, _. split; [reflexivity|]. by rewrite H3t, H3v, H3c.
  - eexists _, _. split; [reflexivity|].
    rewrite !lookup_insert_ne by done. rewrite lookup_insert_eq. done.
Qed.
End Main.
(** ** The run as a whole *)

Lemma run_chars_app (folder : directory) (l1 l2 : list string) :
  run_chars folder (l1 ++ l2) = run_chars folder l1 ∪ run_chars folder l2.
Proof.
  induction l1 as [|f l1 IH].
  - unfold run_chars at 2. simpl. by rewrite (left_id_L ∅ (∪)).
  - rewrite <- app_comm_cons, !run_chars_cons, IH. by rewrite (assoc_L (∪)).
Qed.

(** The merge loop removes nothing and touches no file but the output. *)
Lemma merge_results_frame (collect : bool) (output : string) (results : list result)
    (fs : filesystem) (t : tally) (p : string) :
  p <> output -> (merge_results collect output results fs t).1 !! p = fs !! p.
Proof.
  intros Hp. revert fs t. induction results as [|[tp cs] rs IH]; intros fs t; simpl.
  - done.
  - destruct (if truthy tp then tp ≫= (fs !!.) else None) as [content|].
    + rewrite IH. by rewrite lookup_insert_ne.
    + by rewrite IH.
Qed.

Lemma merge_and_report_clean (dir output : string) (collect : bool)
    (results : list result) (fs : filesystem) (evs : list event) (p : string) :
  in_dir dir p = true ->
  (merge_and_report dir output collect results fs evs).1.2 !! p = None.
Proof.
  intros Hp. unfold merge_and_report.
  destruct (merge_results _ _ _ _ _) as [fs' t]. simpl.
  by rewrite cleanup_lookup, Hp.
Qed.


Lemma split_and_sample_nil (pt pv : nat -> nat) : split_and_sample pt pv [] = None.
Proof. reflexivity. Qed.

(** Whatever the interleaving of the workers in its two runs, [main] leaves
    the files that it leaves when the tasks run one after the other. *)
Lemma main_interleaved_files (o : oracle) (src : source) (fs : filesystem)
    (out : outcome) :
  absolute (env_train o) -> absolute (env_val o) ->
  main_interleaved o src fs out -> outcome_fs out = outcome_fs (main o src fs).
Proof.
  intros Ht Hv. unfold main_interleaved.
  destruct src as [| |folder]; [by intros ->..|].
  destruct (split_and_sample _ _ _) as [[tr va]|] eqn:Hs; [|by intros ->].
  intros (c1 & fs2 & e2 & c2 & fs3 & e3 & evs & H1 & H2 & ->).
  assert (Hcs : (0 < chunk_size)%N) by done.
  assert (Htt : in_dir (temp_dir (env_train o)) output_file_train = false)
    by (by apply absolute_not_in_dir).
  assert (Hvv : in_dir (temp_dir (env_val o)) output_file_val = false)
    by (by apply absolute_not_in_dir).
  pose proof (parallel_run_sequential _ _ _ _ _ _ Hcs (env_train o) _ _ _
                eq_refl Htt H1) as E1.
  pose proof (parallel_run_sequential _ _ _ _ _ _ Hcs (env_val o) _ _ _
                eq_refl Hvv H2) as E2.
  unfold main.
  destruct (Nat.eqb_spec (length (xz_files_in_dir folder)) 0) as [H0|_].
  { apply length_zero_iff_nil in H0. by rewrite H0, split_and_sample_nil in Hs. }
  rewrite Hs.
  destruct (process_files_in_parallel chunk_size folder_path folder (env_train o)
              tr output_file_train true _) as [[c1' fs2'] e2'].
  simpl in E1. injection E1 as -> ->.
  destruct (process_files_in_parallel chunk_size folder_path folder (env_val o)
              va output_file_val true _) as [[c2' fs3'] e3'].
  simpl in E2. injection E2 as -> ->.
  by destruct (write_vocab _ _ _).
Qed.

(** ** Running a schedule *)

Lemma pool_act_step chunk_size folder_path folder dir a p p' :
  pool_act chunk_size folder_path folder dir a p = Some p' ->
  pool_step chunk_size folder_path folder dir p p'.
Proof.
  destruct p as [pend ws done fs evs]. destruct a as [i|n|n]; simpl.
  - destruct pend as [|[k f] rest]; [done|].
    destruct (length ws <? max_workers) eqn:Hlen; [|done].
    destruct (forallb _ ws) eqn:Hpid; [|done].
    destruct (1000 <=? rnd i)%N eqn:Hlo; [|done].
    destruct (rnd i <=? 9999)%N eqn:Hhi; [|done].
    simpl. intros [= <-]. constructor.
    + by apply Nat.ltb_lt.
    + apply Forall_forall. intros w Hw%list_elem_of_In.
      rewrite forallb_forall in Hpid. specialize (Hpid w Hw).
      apply negb_true_iff, N.eqb_neq in Hpid. done.
    + apply N.leb_le in Hlo, Hhi. lia.
  - destruct (ws !! n) as [w|] eqn:Hn; [|done].
    destruct (is_finished (w_state w)) eqn:Hf; [done|].
    destruct (worker_step _ _ _ _ _ _ _) as [[s' fs'] e] eqn:Hs.
    intros [= <-]. rewrite <- (take_drop_middle ws n w Hn) at 1.
    by constructor.
  - destruct (ws !! n) as [w|] eqn:Hn; [|done].
    destruct (w_state w) as [| |r] eqn:Hw; try done.
    intros [= <-]. rewrite <- (take_drop_middle ws n w Hn) at 1.
    by constructor.
Qed.

(** A schedule that runs through is an execution of the pool. *)
Lemma run_schedule_sound chunk_size folder_path folder dir acts p p' :
  run_schedule chunk_size folder_path folder dir acts p = Some p' ->
  rtc (pool_step chunk_size folder_path folder dir) p p'.
Proof.
  revert p. induction acts as [|a acts IH]; intros p; simpl.
  - by intros [= <-].
  - destruct (pool_act _ _ _ _ a p) as [p1|] eqn:Ha; [|done].
    intros H. eapply rtc_l; [exact (pool_act_step _ _ _ _ _ _ _ Ha) | by apply IH].
Qed.

(** ** A run in which the second shard finishes first *)

Example second_shard_finishes_first :
  exists p_mid p_end results,
    rtc (pool_step 2 "openwebtext" demo_folder "/tmp/tmpq")
      (pool_init ["a.xz"; "b.xz"] ∅) p_mid /\
    w_state <$> running p_mid = [Opening] /\
    collected p_mid !! 0 = None /\
    collected p_mid !! 1 = Some (Some "/tmp/tmpq/12_1000_b.xz.txt",
                                 list_to_set (text_of_string "yo")) /\
    rtc (pool_step 2 "openwebtext" demo_folder "/tmp/tmpq") p_mid p_end /\
    pool_done p_end /\
    results_in_order 2 (collected p_end) = Some results /\
    (merge_and_report "/tmp/tmpq" "out.txt" true results (disk p_end) (emitted p_end)).1
      = (Some (list_to_set (text_of_string "hiyo")),
         {["out.txt" := text_of_string "hiyo"]}).
Proof.
  destruct (run_demo first_half) as [p_mid|] eqn:E1;
    [|vm_compute in E1; discriminate E1].
  destruct (run_schedule 2 "openwebtext" demo_folder "/tmp/tmpq" second_half p_mid)
    as [p_end|] eqn:E2;
    [|vm_compute in E1; injection E1 as <-; vm_compute in E2; discriminate E2].
  pose proof (run_schedule_sound _ _ _ _ _ _ _ E1) as R1.
  pose proof (run_schedule_sound _ _ _ _ _ _ _ E2) as R2.
  vm_compute in E1. injection E1 as <-. vm_compute in E2. injection E2 as <-.
  eexists _, _, _. split; [exact R1|]. split; [reflexivity|].
  split; [reflexivity|]. split; [vm_compute; reflexivity|].
  split; [exact R2|]. split; [split; reflexivity|].
  split; vm_compute; reflexivity.
Qed.

(** The example of the specification on the function: shards [a.xz] with
    "hi" and [b.xz] with "yo" give the output "hiyo" and the vocabulary
    h, i, o, y. *)
Example hi_yo :
  let '(chars, fs, _) :=
    process_files_in_parallel 2 "openwebtext" demo_folder (demo_env "/tmp/tmpq")
      ["a.xz"; "b.xz"] "out.txt" true ∅ in
  fs = {["out.txt" := text_of_string "hiyo"]} /\
  sorted_chars (default ∅ chars) = text_of_string "hioy".
Proof. vm_compute. split; reflexivity. Qed.

(** ** The listing and the samples *)

Lemma xz_files_in_dir_fmap (d : directory) :
  xz_files_in_dir d
  = fst <$> filter (fun ne => endswith_xz (fst ne) && is_regular (snd ne)) d.
Proof. reflexivity. Qed.

Lemma elem_of_xz_files_in_dir (d : directory) (f : string) :
  f ∈ xz_files_in_dir d <->
  exists s, (f, RegularFile s) ∈ d /\ endswith_xz f = true.
Proof.
  rewrite xz_files_in_dir_fmap, list_elem_of_fmap. split.
  - intros ([g e] & -> & [Hp Hin]%list_elem_of_filter). simpl in *.
    apply Is_true_true, andb_prop in Hp as [Hxz Hreg].
    destruct e as [|s]; [done|]. by exists s.
  - intros (s & Hin & Hxz). exists (f, RegularFile s). split; [done|].
    apply list_elem_of_filter. split; [|done]. simpl. by rewrite Hxz.
Qed.

(** The shards come in the order of the listing. *)
Lemma xz_files_in_dir_sublist (d : directory) :
  xz_files_in_dir d `sublist_of` fst <$> d.
Proof. rewrite xz_files_in_dir_fmap. apply fmap_sublist, sublist_filter. Qed.

(** [os.listdir] gives each name once, and so does the listing of shards. *)
Lemma xz_files_in_dir_NoDup (d : directory) :
  NoDup (fst <$> d) -> NoDup (xz_files_in_dir d).
Proof. intros Hnd. apply (sublist_NoDup _ _ Hnd), xz_files_in_dir_sublist. Qed.

Lemma dir_lookup_NoDup (d : directory) (f : string) (e : dir_entry) :
  NoDup (fst <$> d) -> (f, e) ∈ d -> dir_lookup d f = Some e.
Proof.
  induction d as [|[g e'] d IH]; csimpl; [by intros _ ?%elem_of_nil|].
  intros [Hnin Hnd]%NoDup_cons [Heq|Hin]%elem_of_cons.
  - injection Heq as <- <-. by rewrite String.eqb_refl.
  - destruct (String.eqb_spec g f) as [->|_]; [|by apply IH].
    exfalso. apply Hnin, list_elem_of_fmap. by exists (f, e).
Qed.

(** Each sample is drawn from its own side of the split. *)
Lemma split_and_sample_inv (pt pv : nat -> nat) (files tr va : list string) :
  split_and_sample pt pv files = Some (tr, va) ->
  (exists rest, tr ++ rest ≡ₚ take (split_index (length files)) files) /\
  (exists rest, va ++ rest ≡ₚ drop (split_index (length files)) files).
Proof.
  unfold split_and_sample, random_sample.
  set (k := split_index (length files)).
  destruct (Nat.leb_spec (sample_count (length (take k files))) (length (take k files)))
    as [Ht|_]; [|done].
  destruct (Nat.leb_spec (sample_count (length (drop k files))) (length (drop k files)))
    as [Hv|_]; [|done].
  intros H. cbn [mbind option_bind] in H.
  assert (Htr : tr = sample_pool (take k files) pt 0 (sample_count (length (take k files))))
    by congruence.
  assert (Hva : va = sample_pool (drop k files) pv 0 (sample_count (length (drop k files))))
    by congruence.
  subst tr va. split.
  - by apply (sample_pool_spec (take k files) pt 0).
  - by apply (sample_pool_spec (drop k files) pv 0).
Qed.

(** [endswith_xz] is [str.endswith(".xz")]: the name is some stem, which may
    be empty, followed by [.xz]. *)
Lemma endswith_xz_spec (name : string) :
  endswith_xz name = true <-> exists stem, name = stem +:+ ".xz".
Proof.
  split.
  - induction name as [|c name IH]; [done|].
    change (endswith_xz (String c name))
      with (String.eqb (String c name) ".xz" || endswith_xz name).
    intros [Heq|Hrec]%orb_prop.
    + apply String.eqb_eq in Heq. exists "". by rewrite string_app_nil_l.
    + destruct (IH Hrec) as [stem ->]. exists (String c stem).
      by rewrite string_app_cons.
  - intros [stem ->]. induction stem as [|c stem IH]; [reflexivity|].
    rewrite string_app_cons.
    change (endswith_xz (String c (stem +:+ ".xz")))
      with (String.eqb (String c (stem +:+ ".xz")) ".xz" || endswith_xz (stem +:+ ".xz")).
    rewrite IH. apply orb_true_r.
Qed.

(** ** The pool's bounds *)

Lemma pool_bounds chunk_size folder_path folder dir files fs p :
  rtc (pool_step chunk_size folder_path folder dir) (pool_init files fs) p ->
  length (running p) <= max_workers /\
  exists m, m <= length files /\ pending p = tasks_from m (drop m files) /\
            length (running p) <= m.
Proof.
  intros Hr. pattern p. revert p Hr. apply rtc_ind_r.
  - simpl. split; [unfold max_workers; lia|]. exists 0.
    split; [lia|]. split; [|done]. rewrite drop_0. apply (tasks_from_imap 0).
  - intros q p _ Hstep (Hmax & m & Hm & Hpend & Hlen).
    inversion Hstep; subst; simpl in *.
    + symmetry in Hpend. apply tasks_from_cons_inv in Hpend as (-> & Hf & ->).
      apply lookup_lt_Some in Hf.
      rewrite length_app. simpl. split; [lia|].
      exists (S m). split; [lia|]. split; [done|lia].
    + rewrite length_app in *. simpl in *. split; [done|]. by exists m.
    + rewrite length_app in *. simpl in *. split; [lia|].
      exists m. split; [done|]. split; [done|lia].
Qed.

(** ** The [collect_vocab] flag *)

(** The flag changes the character set of the tally and nothing else. *)
Lemma merge_results_collect (output : string) (results : list result)
    (fs : filesystem) (t t' : tally) :
  success_count t = success_count t' -> failure_count t = failure_count t' ->
  (merge_results true output results fs t).1
    = (merge_results false output results fs t').1 /\
  success_count (merge_results true output results fs t).2
    = success_count (merge_results false output results fs t').2 /\
  failure_count (merge_results true output results fs t).2
    = failure_count (merge_results false output results fs t').2 /\
  all_chars (merge_results false output results fs t').2 = all_chars t'.
Proof.
  revert fs t t'. induction results as [|[tp cs] rs IH]; intros fs t t' Hs Hf; simpl.
  - done.
  - destruct (if truthy tp then tp ≫= (fs !!.) else None) as [content|].
    + destruct (IH (<[output := default [] (fs !! output) ++ content]> fs)
                  (Tally (S (success_count t)) (failure_count t) (all_chars t ∪ cs))
                  (Tally (S (success_count t')) (failure_count t') (all_chars t')))
        as (H1 & H2 & H3 & H4); simpl; [by f_equal|done|done].
    + destruct (IH fs (Tally (success_count t) (S (failure_count t)) (all_chars t))
                  (Tally (success_count t') (S (failure_count t')) (all_chars t')))
        as (H1 & H2 & H3 & H4); simpl; [done|by f_equal|done].
Qed.

Lemma merge_and_report_collect (dir output : string) (results : list result)
    (fs : filesystem) (evs : list event) :
  merge_and_report dir output false results fs evs
  = (None, (merge_and_report dir output true results fs evs).1.2,
     (merge_and_report dir output true results fs evs).2).
Proof.
  unfold merge_and_report.
  destruct (merge_results_collect output results (open_append output fs)
              (Tally 0 0 ∅) (Tally 0 0 ∅) eq_refl eq_refl) as (H1 & H2 & H3 & _).
  destruct (merge_results true _ _ _ _) as [fs1 t1].
  destruct (merge_results false _ _ _ _) as [fs2 t2].
  simpl in *. by rewrite H1, H2, H3.
Qed.

(** ** [main] on the whole file system *)

(** The files a run leaves: its output file extended, nothing inside its
    temporary directory, every other file as it was. *)
Lemma process_files_in_parallel_lookup (chunk_size : N) (folder_path : string)
    (folder : directory) (env : run_env) (files : list string) (output : string)
    (collect : bool) (fs : filesystem) (p : string) :
  (0 < chunk_size)%N -> in_dir (temp_dir env) output = false ->
  (process_files_in_parallel chunk_size folder_path folder env files output collect fs).1.2
    !! p
  = if decide (p = output) then Some (default [] (fs !! output) ++ run_text folder files)
    else if in_dir (temp_dir env) p then None
    else fs !! p.
Proof.
  intros Hc Hout. rewrite process_files_in_parallel_spec by done.
  cbn [fst snd]. rewrite cleanup_lookup.
  destruct (decide (p = output)) as [->|Hp].
  - by rewrite Hout, lookup_insert_eq.
  - destruct (in_dir (temp_dir env) p); [done|]. by rewrite lookup_insert_ne.
Qed.

(** Whether [main] returns or raises, and what it logs and prints, does not
    depend on the files it finds. *)
Lemma main_shape (o : oracle) (src : source) (fs fs' : filesystem) :
  absolute (env_train o) -> absolute (env_val o) ->
  main o src fs'
  = match main o src fs with
    | Returned _ evs => Returned (outcome_fs (main o src fs')) evs
    | Raised e _ evs => Raised e (outcome_fs (main o src fs')) evs
    end.
Proof.
  intros Ht Hv. destruct src as [| |folder]; [reflexivity..|]. unfold main.
  destruct (length (xz_files_in_dir folder) =? 0); [reflexivity|].
  destruct (split_and_sample _ _ _) as [[tr va]|]; [|reflexivity].
  assert (Hcs : (0 < chunk_size)%N) by done.
  assert (Htt : in_dir (temp_dir (env_train o)) output_file_train = false)
    by (by apply absolute_not_in_dir).
  assert (Hvv : in_dir (temp_dir (env_val o)) output_file_val = false)
    by (by apply absolute_not_in_dir).
  rewrite !(process_files_in_parallel_spec _ _ _ _ Hcs _ _ _ _ Htt).
  rewrite !(process_files_in_parallel_spec _ _ _ _ Hcs _ _ _ _ Hvv).
  cbn [default from_option id]. rewrite !write_vocab_spec.
  destruct (decide (run_chars folder tr ∪ run_chars folder va = ∅)); reflexivity.
Qed.

(** What [main] leaves at every path when it processes the samples [tr] and
    [va]: the three destinations as in [main_spec], no file inside either
    temporary directory, every other file as it was. *)
Lemma main_files (o : oracle) (folder : directory) (tr va : list string)
    (fs : filesystem) :
  absolute (env_train o) -> absolute (env_val o) ->
  split_and_sample (picks_train o) (picks_val o) (xz_files_in_dir folder)
    = Some (tr, va) ->
  exists fs' evs,
    main o (Dir folder) fs = Returned fs' evs /\
    forall p,
      fs' !! p =
        if decide (p = vocab_file) then
          if decide (run_chars folder tr ∪ run_chars folder va = ∅)
          then fs !! vocab_file
          else Some (vocab_lines (sorted_chars
                       (run_chars folder tr ∪ run_chars folder va)))
        else if decide (p = output_file_train) then Some (run_text folder tr)
        else if decide (p = output_file_val) then Some (run_text folder va)
        else if in_dir (temp_dir (env_val o)) p then None
        else if in_dir (temp_dir (env_train o)) p then None
        else fs !! p.
Proof.
  intros Ht Hv Hs.
  assert (Hne : (length (xz_files_in_dir folder) =? 0) = false).
  { apply Nat.eqb_neq. intros H0%length_zero_iff_nil.
    by rewrite H0, split_and_sample_nil in Hs. }
  assert (Hcs : (0 < chunk_size)%N) by done.
  destruct destinations_distinct as (Dtv & Dtc & Dvc).
  assert (Htt : in_dir (temp_dir (env_train o)) output_file_train = false)
    by (by apply absolute_not_in_dir).
  assert (Htc : in_dir (temp_dir (env_train o)) vocab_file = false)
    by (by apply absolute_not_in_dir).
  assert (Hvv : in_dir (temp_dir (env_val o)) output_file_val = false)
    by (by apply absolute_not_in_dir).
  assert (Hvt : in_dir (temp_dir (env_val o)) output_file_train = false)
    by (by apply absolute_not_in_dir).
  assert (Hvc : in_dir (temp_dir (env_val o)) vocab_file = false)
    by (by apply absolute_not_in_dir).
  unfold main. rewrite Hne, Hs.
  set (fs1 := truncate_all [output_file_train; output_file_val] fs).
  assert (H1t : fs1 !! output_file_train = Some []).
  { unfold fs1. simpl. by rewrite lookup_insert_ne, lookup_insert_eq. }
  assert (H1v : fs1 !! output_file_val = Some []).
  { unfold fs1. simpl. by rewrite lookup_insert_eq. }
  assert (H1o : forall q, q <> output_file_train -> q <> output_file_val ->
                          fs1 !! q = fs !! q).
  { intros q Hq1 Hq2. unfold fs1. simpl. by rewrite !lookup_insert_ne. }
  pose proof (fun p => process_files_in_parallel_lookup chunk_size folder_path folder
                (env_train o) tr output_file_train true fs1 p Hcs Htt) as L2.
  pose proof (process_files_in_parallel_spec chunk_size folder_path folder
                (env_train o) Hcs tr output_file_train true fs1 Htt) as S2.
  destruct (process_files_in_parallel chunk_size folder_path folder (env_train o)
              tr output_file_train true fs1) as [[c1 fs2] e2].
  apply (f_equal (fun x => x.1.1)) in S2. cbn [fst snd] in S2, L2. subst c1.
  pose proof (fun p => process_files_in_parallel_lookup chunk_size folder_path folder
                (env_val o) va output_file_val true fs2 p Hcs Hvv) as L3.
  pose proof (process_files_in_parallel_spec chunk_size folder_path folder
                (env_val o) Hcs va output_file_val true fs2 Hvv) as S3.
  destruct (process_files_in_parallel chunk_size folder_path folder (env_val o)
              va output_file_val true fs2) as [[c2 fs3] e3].
  apply (f_equal (fun x => x.1.1)) in S3. cbn [fst snd] in S3, L3. subst c2.
  cbn [default from_option id]. rewrite write_vocab_spec.
  assert (Hlook : forall p,
    fs3 !! p
    = if decide (p = output_file_train) then Some (run_text folder tr)
      else if decide (p = output_file_val) then Some (run_text folder va)
      else if in_dir (temp_dir (env_val o)) p then None
      else if in_dir (temp_dir (env_train o)) p then None
      else fs !! p).
  { intros p. rewrite L3.
    destruct (decide (p = output_file_train)) as [->|Hpt].
    { rewrite decide_False, Hvt, L2, decide_True, H1t by done. done. }
    destruct (decide (p = output_file_val)) as [->|Hpv].
    { rewrite L2, decide_False, (absolute_not_in_dir (env_train o)), H1v by done.
      done. }
    destruct (in_dir (temp_dir (env_val o)) p); [done|].
    rewrite L2, decide_False by done.
    destruct (in_dir (temp_dir (env_train o)) p); [done|]. by apply H1o. }
  destruct (decide (run_chars folder tr ∪ run_chars folder va = ∅)) as [He|He].
  - eexists _, _. split; [reflexivity|]. intros p. rewrite Hlook.
    destruct (decide (p = vocab_file)) as [->|Hpc]; [|done].
    rewrite decide_False, decide_False, Hvc, Htc; done.
  - eexists _, _. split; [reflexivity|]. intros p.
    destruct (decide (p = vocab_file)) as [->|Hpc].
    + by rewrite lookup_insert_eq.
    + rewrite lookup_insert_ne by done. apply Hlook.
Qed.

(** ** The log of a run under any interleaving *)

Lemma snd_tasks_from (k : nat) (files : list string) :
  snd <$> tasks_from k files = files.
Proof. revert k. induction files as [|f files IH]; intros k; csimpl; by rewrite ?IH. Qed.

Lemma length_failure_events (folder_path : string) (folder : directory)
    (files : list string) :
  length (flat_map (failure_events folder_path folder) files) = 2 * failures folder files.
Proof.
  induction files as [|f files IH]; [done|].
  cbn [flat_map]. rewrite length_app, IH, failures_cons.
  unfold failure_events. destruct (shard_text folder f); simpl; lia.
Qed.

Section PoolLog.
Variable chunk_size : N.
Variable folder_path : string.
Variable folder : directory.
Variable dir : string.
Variable files : list string.
Variable fs0 : filesystem.
Hypothesis chunk_pos : (0 < chunk_size)%N.

Let events_of := flat_map (failure_events folder_path folder).

(** What has been logged, with what the tasks still to return will log, is
    what the shards of the run log, each once. *)
Lemma pool_log_reachable p :
  rtc (pool_step chunk_size folder_path folder dir) (pool_init files fs0) p ->
  emitted p ++ events_of (still_to_log p) ≡ₚ events_of files.
Proof.
  intros H. pattern p. revert p H. apply rtc_ind_r.
  - unfold still_to_log, pool_init. cbn [emitted running pending app].
    rewrite filter_nil. cbn [fmap list_fmap app].
    by rewrite (tasks_from_imap 0), snd_tasks_from.
  - intros p1 p2 Hreach Hstep IH.
    destruct (pool_inv_reachable chunk_size folder_path folder dir files fs0
                chunk_pos p1 Hreach) as [m Hinv].
    rewrite <- IH. clear IH.
    inversion Hstep as [k f rest ws done fs evs i Hlen Hpid Hrnd
                       |pend ws1 w ws2 done fs evs s' fs' e Hun Hw
                       |pend ws1 w ws2 done fs evs r Hfin]; subst; clear Hstep;
      unfold still_to_log; cbn [emitted running pending].
    + rewrite filter_app, filter_cons_True, filter_nil by done.
      rewrite fmap_app, <- app_assoc. done.
    + pose proof (inv_running _ _ _ _ _ _ Hinv) as Hrun. cbn [running disk] in Hrun.
      apply Forall_app in Hrun as [_ Hrun]. apply Forall_cons in Hrun as [(_ & _ & Hok) _].
      destruct (worker_step_ok chunk_size folder_path folder chunk_pos
                  _ _ _ _ _ _ _ Hok Hw) as [_ ->].
      rewrite Hun, andb_true_r.
      rewrite !filter_app, (filter_cons_True _ w) by done.
      destruct (is_finished s') eqn:Hs'.
      * rewrite filter_cons_False by (cbn [w_state]; congruence).
        unfold events_of. rewrite !fmap_app, fmap_cons. rewrite !flat_map_app.
        cbn [flat_map]. rewrite <- !app_assoc.
        apply Permutation_app_head.
        rewrite !app_assoc. apply Permutation_app_tail, Permutation_app_tail.
        apply Permutation_app_comm.
      * rewrite filter_cons_True by (cbn [w_state]; congruence).
        by rewrite app_nil_r, !fmap_app, !fmap_cons.
    + rewrite !filter_app, filter_cons_False; [done|].
      rewrite Hfin. cbn [is_finished]. congruence.
Qed.

(** A completed run has logged the failure of each failing shard once, in
    some order, before the line that reports the counts. *)
Lemma parallel_run_log output collect fs out :
  fs = fs0 ->
  parallel_run chunk_size folder_path folder dir files output collect fs out ->
  exists evs m,
    out.2 = evs ++ [LogInfo m; Print m] /\ evs ≡ₚ events_of files.
Proof.
  intros -> (p & results & Hr & [Hpend Hrun] & _ & ->).
  pose proof (pool_log_reachable p Hr) as Hlog.
  unfold still_to_log in Hlog. rewrite Hpend, Hrun, filter_nil in Hlog.
  cbn [fmap list_fmap app] in Hlog. unfold events_of in Hlog at 1.
  cbn [flat_map] in Hlog. rewrite app_nil_r in Hlog.
  unfold merge_and_report. destruct (merge_results _ _ _ _ _) as [fs' t].
  by eexists _, _.
Qed.
End PoolLog.

(** ** [process_file] by the kind of shard *)

(** A shard that cannot be opened leaves every file as it was: the scratch
    file is opened after the shard. *)
Lemma process_file_not_opened (chunk_size : N) (folder_path : string)
    (folder : directory) (temp_dir : string) (i : ids) (f : string) (fs : filesystem) :
  (forall s, dir_lookup folder f <> Some (RegularFile s)) ->
  (process_file chunk_size folder_path folder temp_dir i f fs).1.2 = fs.
Proof.
  intros Hno. unfold process_file, steps_bound.
  destruct (dir_lookup folder f) as [[|s]|] eqn:E.
  - cbn [run_worker worker_step]. by rewrite E.
  - by destruct (Hno s).
  - cbn [run_worker worker_step]. by rewrite E.
Qed.

(** ** When [main] raises *)

Lemma split_and_sample_one (pt pv : nat -> nat) (name : string) :
  split_and_sample pt pv [name] = None.
Proof. vm_compute. reflexivity. Qed.

Lemma main_returns_from_two (o : oracle) (d : directory) (fs : filesystem) :
  2 <= length (xz_files_in_dir d) ->
  exists fs' evs, main o (Dir d) fs = Returned fs' evs.
Proof.
  intros Hn.
  destruct (split_and_sample_spec (picks_train o) (picks_val o) _ Hn)
    as (tr & va & Hs & _).
  unfold main. rewrite Hs.
  destruct (Nat.eqb_spec (length (xz_files_in_dir d)) 0) as [H0|_]; [lia|].
  destruct (process_files_in_parallel _ _ _ (env_train o) _ _ _ _) as [[c1 fs2] e2].
  destruct (process_files_in_parallel _ _ _ (env_val o) _ _ _ _) as [[c2 fs3] e3].
  destruct (write_vocab _ _ _) as [fs4 e4]. by eexists _, _.
Qed.

(** ** The merge loop on any results *)

Lemma length_omap_le {A B} (f : A -> option B) (l : list A) :
  length (omap f l) <= length l.
Proof. induction l as [|a l IH]; csimpl; [done|]. destruct (f a); simpl; lia. Qed.

Lemma merge_results_general (collect : bool) (output : string) (results : list result)
    (fs fs0 : filesystem) (t : tally) (cur : text) :
  Forall (fun r => r.1 <> Some output) results ->
  (forall p, p <> output -> fs !! p = fs0 !! p) ->
  fs !! output = Some cur ->
  merge_results collect output results fs t
  = (<[output := cur ++ concat (omap (scratch_content fs0) results)]> fs,
     Tally (success_count t + length (omap (scratch_content fs0) results))
           (failure_count t
              + (length results - length (omap (scratch_content fs0) results)))
           (if collect
            then all_chars t
                   ∪ ⋃ (snd <$> filter (fun r => is_Some (scratch_content fs0 r)) results)
            else all_chars t)).
Proof.
  intros Hno. revert fs t cur.
  induction Hno as [|[tp cs] results Hr Hno IH]; intros fs t cur Hfs Hcur.
  - cbn [merge_results omap list_omap concat length].
    rewrite filter_nil, app_nil_r, insert_id, !Nat.add_0_r by done.
    cbn [fmap list_fmap union_list foldr].
    destruct t, collect; simpl; [|done].
    by rewrite (right_id_L ∅ (∪)).
  - cbn [fst] in Hr.
    assert (Hsame : (if truthy tp then tp ≫= (fs !!.) else None)
                    = scratch_content fs0 (tp, cs)).
    { unfold scratch_content. cbn [fst]. destruct (truthy tp); [|done].
      destruct tp as [p|]; [|done]. cbn [mbind option_bind].
      apply Hfs. congruence. }
    cbn [merge_results]. rewrite Hsame.
    pose proof (length_omap_le (scratch_content fs0) results) as Hlen.
    destruct (scratch_content fs0 (tp, cs)) as [content|] eqn:Hc.
    + rewrite (IH _ _ (cur ++ content)).
      * rewrite insert_insert_eq. cbn [omap list_omap]. rewrite Hc.
        simpl.
        rewrite filter_cons_True by (by rewrite Hc).
        rewrite <- app_assoc. f_equal. f_equal; try lia.
        destruct collect; [|done]. csimpl. by rewrite (assoc_L (∪)).
      * intros p Hp. rewrite lookup_insert_ne by done. by apply Hfs.
      * by rewrite Hcur, lookup_insert_eq.
    + rewrite (IH _ _ cur) by done. cbn [omap list_omap]. rewrite Hc.
      simpl.
      rewrite filter_cons_False by (rewrite Hc; by intros [? ?]).
      f_equal. f_equal; try lia.
Qed.

(** * The claims *)





(** C10. The scratch path determines the process id, the random integer and
    the shard filename it was made from. So the tasks of a run on distinct
    filenames get pairwise different scratch paths, whatever ids they draw; and
    on any list, the tasks that run at the same time, being in different
    processes, never have the same scratch file. *)
Theorem scratch_paths_distinct (chunk_size : N) (folder_path : string)
    (folder : directory) (dir : string) (files : list string) (fs : filesystem) :
  (0 < chunk_size)%N ->
  (forall i i' f f',
      temp_output dir i f = temp_output dir i' f' <-> i = i' /\ f = f') /\
  (NoDup files ->
   forall k1 k2 f1 f2 i1 i2,
      files !! k1 = Some f1 -> files !! k2 = Some f2 -> k1 <> k2 ->
      temp_output dir i1 f1 <> temp_output dir i2 f2) /\
  (forall p,
      rtc (pool_step chunk_size folder_path folder dir) (pool_init files fs) p ->
      NoDup (w_out <$> running p)).
Proof.
  intros Hc. split; [|split].
  - intros i i' f f'. split; [apply temp_output_inj | by intros [-> ->]].
  - intros Hnd k1 k2 f1 f2 i1 i2. by apply scratch_neq.
  - intros p. by apply running_scratch_distinct.
Qed.

Lemma scratch_paths_distinct_witness :
  (0 < 2)%N /\ NoDup ["a.xz"; "b.xz"] /\
  temp_output "/tmp/tmpq" (Ids 7 1000) "a.xz"
    <> temp_output "/tmp/tmpq" (Ids 7 1000) "b.xz".
Proof.
  assert (H1 : (0 < 2)%N) by lia.
  assert (H2 : NoDup ["a.xz"; "b.xz"])
    by (apply (bool_decide_unpack _); vm_compute; exact I).
  split; [exact H1|]. split; [exact H2|].
  exact (proj1 (proj2 (scratch_paths_distinct 2 "openwebtext" demo_folder
           "/tmp/tmpq" ["a.xz"; "b.xz"] ∅ H1)) H2
         0 1 "a.xz" "b.xz" (Ids 7 1000) (Ids 7 1000) eq_refl eq_refl
         ltac:(discriminate)).
Defined.

(** C7, as the code has it. The merge loop deletes nothing: every file other
    than the output file, each scratch file among them, is after the loop what
    it was before. The scratch files go when the temporary directory is left:
    after a run, under any schedule, no path inside it is a file. *)
Theorem scratch_removed_at_teardown (chunk_size : N) (folder_path : string)
    (folder : directory) (dir : string) (files : list string) (output : string)
    (collect : bool) (fs : filesystem) :
  (forall results fs1 t p,
      p <> output ->
      (merge_results collect output results fs1 t).1 !! p = fs1 !! p) /\
  (forall out p,
      parallel_run chunk_size folder_path folder dir files output collect fs out ->
      in_dir dir p = true -> out.1.2 !! p = None) /\
  (forall env p,
      temp_dir env = dir -> in_dir dir p = true ->
      (process_files_in_parallel chunk_size folder_path folder env
         files output collect fs).1.2 !! p = None).
Proof.
  split; [|split].
  - intros results fs1 t p. apply merge_results_frame.
  - intros out p (pl & results & _ & _ & _ & ->). apply merge_and_report_clean.
  - intros env p <- Hp. unfold process_files_in_parallel.
    destruct (executor_map _ _ _ _ _ _ _ _) as [[results fs1] evs].
    by apply merge_and_report_clean.
Qed.

Lemma scratch_removed_at_teardown_witness :
  (process_files_in_parallel 2 "openwebtext" demo_folder (demo_env "/tmp/tmpq")
     ["a.xz"; "c.xz"] "out.txt" true ∅).1.2 !! "/tmp/tmpq/4242_1000_a.xz.txt" = None.
Proof.
  exact (proj2 (proj2 (scratch_removed_at_teardown 2 "openwebtext" demo_folder
           "/tmp/tmpq" ["a.xz"; "c.xz"] "out.txt" true ∅))
         (demo_env "/tmp/tmpq") "/tmp/tmpq/4242_1000_a.xz.txt" eq_refl eq_refl).
Defined.

(** C7 as stated fails: after the merge loop has copied the scratch file of
    [a.xz] into the output file, and before the temporary directory is left,
    the scratch file is still there. *)
Lemma scratch_survives_merge :
  let '(results, fs1, _) :=
    executor_map 2 "openwebtext" demo_folder (demo_env "/tmp/tmpq") 0 ["a.xz"] ∅ [] in
  let fs2 :=
    (merge_results true "out.txt" results (open_append "out.txt" fs1) (Tally 0 0 ∅)).1 in
  results = [(Some "/tmp/tmpq/4242_1000_a.xz.txt", list_to_set (text_of_string "hi"))] /\
  fs2 !! "out.txt" = Some (text_of_string "hi") /\
  fs2 !! "/tmp/tmpq/4242_1000_a.xz.txt" = Some (text_of_string "hi").
Proof. vm_compute. repeat split; reflexivity. Qed.






(** C5. When the source directory does not exist, or holds no regular file
    whose name ends in [.xz], [main] logs and prints the error and returns with
    every file as it was: neither output file nor the vocabulary file is
    written or truncated. *)
Theorem structural_errors_write_nothing (o : oracle) (src : source) (fs : filesystem) :
  src = Absent \/
  (exists d, src = Dir d /\
     forall name e, (name, e) ∈ d -> endswith_xz name = true -> e = SubDir) ->
  exists m evs,
    main o src fs = Returned fs evs /\
    LogError m ∈ evs /\ Print m ∈ evs /\
    (m = DirNotFound folder_path \/ m = NoXzFiles).
Proof.
  intros [->|(d & -> & Hd)].
  - exists (DirNotFound folder_path). eexists. split; [reflexivity|].
    split; [by left|]. split; [right; by left | by left].
  - apply xz_files_in_dir_nil in Hd. exists NoXzFiles. eexists. unfold main.
    rewrite Hd. split; [reflexivity|]. simpl.
    split; [|split; [|by right]].
    + do 2 right. by left.
    + do 3 right. by left.
Qed.

Lemma structural_errors_write_nothing_witness :
  (exists m evs,
     main demo_oracle Absent {[vocab_file := text_of_string "x"]}
       = Returned {[vocab_file := text_of_string "x"]} evs /\
     LogError m ∈ evs /\ Print m ∈ evs /\
     (m = DirNotFound folder_path \/ m = NoXzFiles)) /\
  (exists m evs,
     main demo_oracle (Dir [("d.xz", SubDir); ("notes.txt", shard "n" false)]) ∅
       = Returned ∅ evs /\
     LogError m ∈ evs /\ Print m ∈ evs /\
     (m = DirNotFound folder_path \/ m = NoXzFiles)).
Proof.
  split.
  - exact (structural_errors_write_nothing demo_oracle Absent
             {[vocab_file := text_of_string "x"]} (or_introl eq_refl)).
  - apply structural_errors_write_nothing. right.
    exists [("d.xz", SubDir); ("notes.txt", shard "n" false)]. split; [reflexivity|].
    intros name e Hin Hxz.
    apply elem_of_cons in Hin as [Hin|Hin]; [by injection Hin as -> ->|].
    apply elem_of_cons in Hin as [Hin|Hin]; [|by apply elem_of_nil in Hin].
    injection Hin as -> ->. vm_compute in Hxz. discriminate Hxz.
Defined.


(** [main] either leaves every file as it is, or processes two samples. *)
Lemma main_cases (o : oracle) (src : source) :
  (forall fs, outcome_fs (main o src fs) = fs) \/
  (exists folder tr va,
      src = Dir folder /\ xz_files_in_dir folder <> [] /\
      split_and_sample (picks_train o) (picks_val o) (xz_files_in_dir folder)
        = Some (tr, va)).
Proof.
  destruct src as [| |folder]; [by left..|].
  destruct (xz_files_in_dir folder) as [|f l] eqn:E.
  - left. intros fs. unfold main. by rewrite E.
  - destruct (split_and_sample (picks_train o) (picks_val o) (f :: l))
      as [[tr va]|] eqn:Hs.
    + right. exists folder, tr, va. by rewrite E.
    + left. intros fs. unfold main. rewrite E. cbn [length Nat.eqb].
      by rewrite Hs.
Qed.






(** C4, as the code has it. For every listing of two or more shard files the
    step returns two non-empty samples; the training sample is drawn without
    repetition from the first [int(n * 0.9)] files and the validation sample
    from the rest, [max(1, int(len * 0.01))] of each, in the order in which
    [random.sample] draws them. *)
Theorem split_and_sample_two_or_more (pt pv : nat -> nat) (files : list string) :
  2 <= length files ->
  exists tr va,
    split_and_sample pt pv files = Some (tr, va) /\
    tr <> [] /\ va <> [] /\
    length tr = sample_count (split_index (length files)) /\
    length va = sample_count (length files - split_index (length files)) /\
    (exists rest, tr ++ rest ≡ₚ take (split_index (length files)) files) /\
    (exists rest, va ++ rest ≡ₚ drop (split_index (length files)) files).
Proof.
  intros Hn.
  destruct (split_and_sample_spec pt pv files Hn)
    as (tr & va & Hs & Hltr & Hlva & Hptr & Hpva).
  exists tr, va. split; [done|].
  pose proof (sample_count_pos (split_index (length files))).
  pose proof (sample_count_pos (length files - split_index (length files))).
  split; [intros ->; simpl in Hltr; lia|].
  split; [intros ->; simpl in Hlva; lia|]. done.
Qed.

Lemma split_and_sample_two_or_more_witness :
  2 <= length ["a.xz"; "b.xz"; "c.xz"] /\
  exists tr va,
    split_and_sample (fun _ => 0) (fun _ => 0) ["a.xz"; "b.xz"; "c.xz"] = Some (tr, va) /\
    tr <> [] /\ va <> [].
Proof.
  assert (H1 : 2 <= length ["a.xz"; "b.xz"; "c.xz"]) by (simpl; lia).
  split; [exact H1|].
  destruct (split_and_sample_two_or_more (fun _ => 0) (fun _ => 0)
              ["a.xz"; "b.xz"; "c.xz"] H1) as (tr & va & Hs & Ht & Hv & _).
  exists tr, va. split; [exact Hs|]. split; [exact Ht | exact Hv].
Defined.

(** C4 as stated fails: on a listing of one file the training part is empty
    and [random.sample] raises; and on a listing of 223 files a training
    sample comes out in the order of the draws, against the order of the
    listing. *)
Lemma split_and_sample_fails_or_reorders :
  split_and_sample (fun _ => 0) (fun _ => 0) ["a.xz"] = None /\
  split_and_sample (fun i => if i =? 0 then 5 else 2) (fun _ => 0) (numbered_files 223)
    = Some (["5.xz"; "2.xz"], ["200.xz"]) /\
  numbered_files 223 !! 2 = Some "2.xz" /\
  numbered_files 223 !! 5 = Some "5.xz".
Proof. vm_compute. repeat split; reflexivity. Qed.

(** ** Further properties *)



(** X2. In binary64 arithmetic [int(n * 0.9)] lies between 1 and [n - 1] for
    every [n] of two or more, so both parts of the split are non-empty; and
    [max(1, int(len * 0.01))] never exceeds a non-empty part. *)
Theorem split_parts_nonempty (n : nat) :
  2 <= n ->
  1 <= split_index n < n /\
  sample_count (split_index n) <= split_index n /\
  sample_count (n - split_index n) <= n - split_index n.
Proof.
  intros Hn.
  pose proof (split_index_pos n Hn). pose proof (split_index_lt n ltac:(lia)).
  split; [lia|]. split; apply sample_count_le; lia.
Qed.

Lemma split_parts_nonempty_witness :
  2 <= 10 /\ 1 <= split_index 10 < 10.
Proof.
  assert (H : 2 <= 10) by lia.
  split; [exact H|]. exact (proj1 (split_parts_nonempty 10 H)).
Defined.

(** X3. On a listing with a single [.xz] file the training part is empty:
    [random.sample] raises [ValueError], and [main] ends there with every file
    as it was. *)
Theorem single_file_listing_raises (o : oracle) (name : string) (s : xz_stream)
    (fs : filesystem) :
  endswith_xz name = true ->
  main o (Dir [(name, RegularFile s)]) fs
    = Raised ValueError fs [LogInfo (Scanning folder_path); LogInfo (Found 1)].
Proof.
  intros Hxz.
  assert (Hf : xz_files_in_dir [(name, RegularFile s)] = [name]).
  { unfold xz_files_in_dir. rewrite filter_cons. cbn [fst snd is_regular].
    rewrite Hxz. reflexivity. }
  assert (Hs : split_and_sample (picks_train o) (picks_val o) [name] = None)
    by (vm_compute; reflexivity).
  unfold main. rewrite Hf. cbn [length Nat.eqb]. by rewrite Hs.
Qed.

Lemma single_file_listing_raises_witness :
  endswith_xz "a.xz" = true /\
  main demo_oracle (Dir [("a.xz", shard "hi" false)]) ∅
    = Raised ValueError ∅ [LogInfo (Scanning folder_path); LogInfo (Found 1)].
Proof.
  assert (H : endswith_xz "a.xz" = true) by reflexivity.
  split; [exact H|].
  exact (single_file_listing_raises demo_oracle "a.xz"
           (XzStream (text_of_string "hi") false) ∅ H).
Defined.

(** X4. Below [2^48] files the binary64 products are exact: the split index
    [int(n * 0.9)] is [9 n / 10] and the sample size [max(1, int(m * 0.01))]
    is [max(1, m / 100)], both in integer division; so the training sample of
    a listing of [n] files has [max(1, (9 n / 10) / 100)] files. *)
Theorem split_sizes_exact (n : nat) :
  (Z.of_nat n < 2 ^ 48)%Z ->
  split_index n = 9 * n / 10 /\
  sample_count n = Nat.max 1 (n / 100) /\
  sample_count (split_index n) = Nat.max 1 (9 * n / 10 / 100) /\
  sample_count (n - split_index n) = Nat.max 1 ((n - 9 * n / 10) / 100).
Proof.
  intros Hn. rewrite (split_index_exact n Hn).
  assert (H9 : 9 * n / 10 <= n).
  { apply Nat.Div0.div_le_upper_bound. lia. }
  split; [done|]. split; [by apply sample_count_exact|].
  split; apply sample_count_exact; lia.
Qed.

Lemma split_sizes_exact_witness :
  (Z.of_nat 223 < 2 ^ 48)%Z /\ split_index 223 = 200 /\ sample_count 223 = 2.
Proof.
  assert (H : (Z.of_nat 223 < 2 ^ 48)%Z) by (vm_compute; reflexivity).
  split; [exact H|].
  destruct (split_sizes_exact 223 H) as (H1 & H2 & _).
  split; [exact H1 | exact H2].
Defined.



(** X6. [xz_files_in_dir] returns, in the order of the listing, the names of
    the regular files whose name is some stem (possibly empty) followed by
    [.xz]: directories named [x.xz] and files with another ending are left
    out, and a file named just [.xz] is taken. *)
Theorem xz_listing (d : directory) :
  xz_files_in_dir d `sublist_of` fst <$> d /\
  (forall f, f ∈ xz_files_in_dir d <->
             exists s stem, (f, RegularFile s) ∈ d /\ f = stem +:+ ".xz") /\
  (forall s, xz_files_in_dir ((".xz", RegularFile s) :: d) = ".xz" :: xz_files_in_dir d) /\
  (forall stem, xz_files_in_dir ((stem +:+ ".xz", SubDir) :: d) = xz_files_in_dir d).
Proof.
  split; [apply xz_files_in_dir_sublist|]. split; [|split].
  - intros f. rewrite elem_of_xz_files_in_dir. split.
    + intros (s & Hin & [stem Hs]%endswith_xz_spec). by exists s, stem.
    + intros (s & stem & Hin & Hs). exists s. split; [done|].
      apply endswith_xz_spec. by exists stem.
  - intros s. reflexivity.
  - intros stem. unfold xz_files_in_dir. rewrite filter_cons. cbn [fst snd is_regular].
    by rewrite andb_false_r.
Qed.



(** X8. [collect_vocab=False] makes [process_files_in_parallel] return [None]
    in place of the character set and changes nothing else: the files it
    leaves and what it logs and prints are those of the call with
    [collect_vocab=True], under the schedule of one task after the other and
    under every interleaving. *)
Theorem collect_vocab_only_drops_chars (chunk_size : N) (folder_path : string)
    (folder : directory) (files : list string) (output : string) (fs : filesystem) :
  (forall env,
     let with_chars :=
       process_files_in_parallel chunk_size folder_path folder env files output true fs in
     process_files_in_parallel chunk_size folder_path folder env files output false fs
       = (None, with_chars.1.2, with_chars.2) /\
     is_Some with_chars.1.1) /\
  (forall dir out,
     parallel_run chunk_size folder_path folder dir files output true fs out ->
     is_Some out.1.1 /\
     parallel_run chunk_size folder_path folder dir files output false fs
       (None, out.1.2, out.2)).
Proof.
  split.
  - intros env with_chars. unfold with_chars, process_files_in_parallel.
    destruct (executor_map _ _ _ _ _ _ _ _) as [[results fs1] evs].
    split; [apply merge_and_report_collect|].
    unfold merge_and_report. by destruct (merge_results _ _ _ _ _).
  - intros dir out (p & results & Hr & Hd & Hres & ->). split.
    + unfold merge_and_report. by destruct (merge_results _ _ _ _ _).
    + exists p, results. repeat split; try done; try apply Hd.
      symmetry. apply merge_and_report_collect.
Qed.










(** X14. The merge loop on any list of results, none of which names the
    output file itself: the output file gains, in the order of the results,
    the content of every scratch file that is named and exists; the successes
    are those results and the failures all others, so the two counts add up
    to the number of results; and the characters of a result whose scratch
    file is missing are not collected. *)
Theorem merge_loop_counts_every_result (collect : bool) (output : string)
    (results : list result) (fs : filesystem) (cur : text) :
  Forall (fun r => r.1 <> Some output) results ->
  fs !! output = Some cur ->
  let '(fs', t) := merge_results collect output results fs (Tally 0 0 ∅) in
  fs' = <[output := cur ++ concat (omap (scratch_content fs) results)]> fs /\
  success_count t = length (omap (scratch_content fs) results) /\
  success_count t + failure_count t = length results /\
  all_chars t
    = (if collect
       then ⋃ (snd <$> filter (fun r => is_Some (scratch_content fs r)) results)
       else ∅).
Proof.
  intros Hno Hcur.
  rewrite (merge_results_general collect output results fs fs (Tally 0 0 ∅) cur)
    by done.
  simpl.
  pose proof (length_omap_le (scratch_content fs) results) as Hlen.
  split; [done|]. split; [done|]. split; [lia|].
  destruct collect; [|done]. by rewrite (left_id_L ∅ (∪)).
Qed.

Lemma merge_loop_counts_every_result_witness :
  Forall (fun r => r.1 <> Some "out") merge_demo_results /\
  merge_demo_fs !! "out" = Some [97%N] /\
  (merge_results true "out" merge_demo_results merge_demo_fs (Tally 0 0 ∅)).1 !! "out"
    = Some [97%N; 104%N] /\
  success_count (merge_results true "out" merge_demo_results merge_demo_fs (Tally 0 0 ∅)).2
    = 1 /\
  failure_count (merge_results true "out" merge_demo_results merge_demo_fs (Tally 0 0 ∅)).2
    = 2.
Proof.
  assert (H1 : Forall (fun r => r.1 <> Some "out") merge_demo_results)
    by (apply (bool_decide_unpack _); vm_compute; exact I).
  assert (H2 : merge_demo_fs !! "out" = Some [97%N]) by reflexivity.
  split; [exact H1|]. split; [exact H2|].
  pose proof (merge_loop_counts_every_result true "out" merge_demo_results
                merge_demo_fs [97%N] H1 H2) as H.
  destruct (merge_results true "out" merge_demo_results merge_demo_fs (Tally 0 0 ∅))
    as [fs' t].
  destruct H as (-> & Hs & Hsum & _). cbn [fst snd].
  split; [reflexivity|]. split; [exact Hs|].
  assert (Hn : length (omap (scratch_content merge_demo_fs) merge_demo_results) = 1)
    by (vm_compute; reflexivity).
  rewrite Hs, Hn in Hsum. change (length merge_demo_results) with 3 in Hsum. lia.
Defined.
